(** * libUIO: a shallow embedding of [handling.c]

    The public functions of the UserspaceIO helper library are embedded
    as Rocq functions.  Descriptors are records, the [maps] array is a
    list indexed as the C code indexes it, and every call into the kernel,
    the C library or the descriptor factory goes through an oracle of the
    class [Env]; the calls and their results are logged in a trace, so that
    statements such as "no mapping call is issued" are statements about
    that trace.

    Target ABI: LP64, little-endian (32-bit [int], 64-bit [unsigned long]
    and pointers), as on x86-64 and aarch64 Linux. *)

From Stdlib Require Import ZArith Lia Ascii String.
From stdpp Require Import base list strings sorting.

Local Open Scope Z_scope.

(** ** Machine integers and platform constants *)

Definition INT_MIN : Z := - 2 ^ 31.
Definition INT_MAX : Z := 2 ^ 31 - 1.

(** Conversion of an integer value to [int] (wrap-around on 32 bits). *)
Definition int_of (z : Z) : Z := (z + 2 ^ 31) mod 2 ^ 32 - 2 ^ 31.

(** Pointers are addresses; [MAP_FAILED] is [(void * ) -1]. *)
Definition NULL : Z := 0.
Definition MAP_FAILED : Z := 2 ^ 64 - 1.

Definition ENOMEM : Z := 12.
Definition EINVAL : Z := 22.
Definition ETIMEDOUT : Z := 110.

Definition O_RDWR : Z := 2.
Definition PROT_READ : Z := 1.
Definition PROT_WRITE : Z := 2.
Definition MAP_SHARED : Z := 1.
Definition PATH_MAX : nat := 4096.
Definition FD_SETSIZE : Z := 1024.

(** [major] and [minor] of [<sys/sysmacros.h>] (glibc encoding of [dev_t]);
    the result is handed back as an [int]. *)
Definition major (dev : Z) : Z :=
  Z.lor (Z.shiftr (Z.land dev 0xfff00) 8)
        (Z.shiftr (Z.land dev 0xfffff00000000000) 32).

Definition minor (dev : Z) : Z :=
  Z.lor (Z.land dev 0xff)
        (Z.shiftr (Z.land dev 0xffffff00000) 12).

(** Object representation of an [unsigned long]: [n] bytes, least
    significant first. *)
Fixpoint le_bytes (n : nat) (v : Z) : list Z :=
  match n with
  | O => []
  | S n' => v mod 256 :: le_bytes n' (v / 256)
  end.

Definition sizeof_ulong : nat := 8.
Definition ulong_bytes (v : Z) : list Z := le_bytes sizeof_ulong v.

(** The value of a little-endian byte string. *)
Fixpoint le_value (bs : list Z) : Z :=
  match bs with
  | [] => 0
  | b :: bs' => b + 256 * le_value bs'
  end.

(** ** Data model *)

(** Modelled from the spec: [struct uio_map_t] of [libUIO.h], which is not
    among the sources.  The fields are those [handling.c] reads and writes
    ([addr], [size], [offset], [map]), with the prefix [m_]. *)
Record uio_map_t := {
  m_addr : Z;
  m_size : Z;
  m_offset : Z;
  m_map : Z
}.

(** Modelled from the spec: [struct uio_info_t] of [libUIO.h].  The fields
    are those [handling.c] uses ([name], [version], [maps], [devname],
    [devid], [maxmap], [fd]), with the prefix [i_].  A [char *] is an
    optional string ([None] is the null pointer); [maps] points to an
    array, modelled by the list of its elements. *)
Record uio_info_t := {
  i_name : option string;
  i_version : option string;
  i_maps : list uio_map_t;
  i_devname : option string;
  i_devid : Z;
  i_maxmap : Z;
  i_fd : Z
}.

Record timeval := { tv_sec : Z; tv_usec : Z }.

(** The factory allocates [maxmap] elements for [maps]. *)
Definition wf_info (inf : uio_info_t) : Prop :=
  Z.of_nat (length (i_maps inf)) = i_maxmap inf.

(** ** Results: a value, or undefined behaviour *)

Inductive res (A : Type) : Type :=
| Val (a : A)
| Fault.
Arguments Val {A} a.
Arguments Fault {A}.

Definition res_bind {A B} (r : res A) (f : A -> res B) : res B :=
  match r with
  | Val a => f a
  | Fault => Fault
  end.

(** [a[i]] for a C array holding the elements of [l]: an index outside
    the array is an access outside the object. *)
Definition array_get {A} (l : list A) (i : Z) : res A :=
  if i <? 0 then Fault
  else match l !! Z.to_nat i with
       | Some x => Val x
       | None => Fault
       end.

(** [info->maps [i].map = p] *)
Definition set_m_map (p : Z) (m : uio_map_t) : uio_map_t :=
  {| m_addr := m_addr m; m_size := m_size m; m_offset := m_offset m;
     m_map := p |}.

Definition set_i_maps (ms : list uio_map_t) (inf : uio_info_t) : uio_info_t :=
  {| i_name := i_name inf; i_version := i_version inf; i_maps := ms;
     i_devname := i_devname inf; i_devid := i_devid inf;
     i_maxmap := i_maxmap inf; i_fd := i_fd inf |}.

(** [info->fd = fd] *)
Definition set_i_fd (fd : Z) (inf : uio_info_t) : uio_info_t :=
  {| i_name := i_name inf; i_version := i_version inf; i_maps := i_maps inf;
     i_devname := i_devname inf; i_devid := i_devid inf;
     i_maxmap := i_maxmap inf; i_fd := fd |}.

(** ** Accessors *)

Definition uio_get_mem_size (info : option uio_info_t) (map : Z) : res Z :=
  match info with
  | None => Val 0
  | Some inf =>
      if map >=? i_maxmap inf then Val 0
      else res_bind (array_get (i_maps inf) map) (fun m => Val (m_size m))
  end.

Definition uio_get_offset (info : option uio_info_t) (map : Z) : res Z :=
  match info with
  | None => Val 0
  | Some inf =>
      if map >=? i_maxmap inf then Val 0
      else res_bind (array_get (i_maps inf) map) (fun m => Val (m_offset m))
  end.

Definition uio_get_mem_addr (info : option uio_info_t) (map : Z) : res Z :=
  match info with
  | None => Val 0
  | Some inf =>
      if map >=? i_maxmap inf then Val 0
      else res_bind (array_get (i_maps inf) map) (fun m => Val (m_addr m))
  end.

Definition uio_get_mem_map (info : option uio_info_t) (map : Z) : res Z :=
  match info with
  | None => Val NULL
  | Some inf =>
      if map >=? i_maxmap inf then Val NULL
      else res_bind (array_get (i_maps inf) map) (fun m =>
             if m_map m =? MAP_FAILED then Val NULL else Val (m_map m))
  end.

Definition uio_get_name (info : option uio_info_t) : option string :=
  match info with
  | None => None
  | Some inf => i_name inf
  end.

Definition uio_get_devname (info : option uio_info_t) : option string :=
  match info with
  | None => None
  | Some inf => i_devname inf
  end.

Definition uio_get_version (info : option uio_info_t) : option string :=
  match info with
  | None => None
  | Some inf => i_version inf
  end.

Definition uio_get_major (info : option uio_info_t) : Z :=
  match info with
  | None => 0
  | Some inf => int_of (major (i_devid inf))
  end.

Definition uio_get_minor (info : option uio_info_t) : Z :=
  match info with
  | None => 0
  | Some inf => int_of (minor (i_devid inf))
  end.

Definition uio_get_devid (info : option uio_info_t) : Z :=
  match info with
  | None => 0
  | Some inf => i_devid inf
  end.

Definition uio_get_maxmap (info : option uio_info_t) : Z :=
  match info with
  | None => 0
  | Some inf => i_maxmap inf
  end.

(** ** The environment

    Everything [handling.c] obtains from outside: system calls and
    [calloc] (each returns an integer or an address), the directory
    listing behind [scandir], the diagnostic printer [perror], and the
    descriptor factory [create_uio_info], which is declared in
    [handling.c] and defined elsewhere.  An oracle maps the state [W] of
    the outside world to an answer, an optional assignment to [errno],
    and the next state.  [perror] is given the message and the value of
    [errno] it reports; it returns nothing, but writing to the standard
    error stream may itself fail and assign [errno]. *)

Inductive call : Type :=
| Open (path : option string) (flags : Z)
| Mmap (addr len prot flags fd off : Z)
| Munmap (addr len : Z)
| Close (fd : Z)
| Write (fd : Z) (buf : list Z)
| Read (fd : Z) (count : Z)
| Select (nfds : Z) (readfds : list Z) (timeout : timeval)
| Calloc (nmemb sz : Z).

Class Env (W : Type) := {
  sys_call : call -> W -> Z * option Z * W;
  sys_readdir : string -> W -> option (list string) * option Z * W;
  sys_perror : string -> Z -> W -> option Z * W;
  create_uio_info : string -> string -> W -> option uio_info_t * option Z * W
}.

Inductive event : Type :=
| EvCall (c : call) (r : Z)
| EvReaddir (dir : string) (r : option (list string))
| EvFactory (dir name : string) (r : option uio_info_t)
| EvPerror (msg : string) (e : Z).

(** Program state: the outside world, [errno], the file-scope variable
    [sysfs], and the calls made so far, oldest first. *)
Record state (W : Type) := mkState {
  world : W;
  errno : Z;
  sysfs : string;
  trace : list event
}.
Arguments mkState {W}.
Arguments world {W}.
Arguments errno {W}.
Arguments sysfs {W}.
Arguments trace {W}.

Definition M (W A : Type) : Type := state W -> res (A * state W).

Definition ret {W A} (a : A) : M W A := fun s => Val (a, s).

Definition bind {W A B} (m : M W A) (f : A -> M W B) : M W B :=
  fun s => match m s with
           | Val (a, s') => f a s'
           | Fault => Fault
           end.

Notation "'let*' x ':=' c 'in' k" := (bind c (fun x => k))
  (at level 10, x pattern, c at level 100, k at level 200).
Notation "c ';;' k" := (bind c (fun _ => k))
  (at level 100, k at level 200, right associativity).

Definition lift {W A} (r : res A) : M W A :=
  fun s => match r with
           | Val a => Val (a, s)
           | Fault => Fault
           end.

Definition log {W} (e : event) (s : state W) : state W :=
  mkState (world s) (errno s) (sysfs s) (trace s ++ [e]).

Definition answer {W} (e : option Z) (w : W) (s : state W) : state W :=
  mkState w (default (errno s) e) (sysfs s) (trace s).

Definition set_errno {W} (e : Z) : M W unit :=
  fun s => Val (tt, mkState (world s) e (sysfs s) (trace s)).

(** The state after [perror (msg)]: the message for the current [errno]
    is handed to the C library, which leaves the outside world and [errno]
    as it sees fit. *)
Definition diagnosed {W} {E : Env W} (msg : string) (s : state W) : state W :=
  let '(e, w) := sys_perror msg (errno s) (world s) in
  mkState w (default (errno s) e) (sysfs s)
    (trace s ++ [EvPerror msg (errno s)]).

Definition perror {W} {E : Env W} (msg : string) : M W unit :=
  fun s => Val (tt, diagnosed msg s).

Definition get_sysfs {W} : M W string := fun s => Val (sysfs s, s).

(** [for (i = 0; i < hi; i++) body], where the body does not assign [i]
    or [hi]: [Z.to_nat hi] iterations, threading the variables the body
    updates. *)
Fixpoint for_loop {W S} (n : nat) (i : Z) (body : Z -> S -> M W S)
    (acc : S) : M W S :=
  match n with
  | O => ret acc
  | S n' => let* acc' := body i acc in for_loop n' (i + 1) body acc'
  end.

Definition for_range {W S} (hi : Z) (body : Z -> S -> M W S) (acc : S)
    : M W S :=
  for_loop (Z.to_nat hi) 0 body acc.

(** [a[i] = x], in bounds. *)
Definition array_set {A} (l : list A) (i : Z) (x : A) : res (list A) :=
  if i <? 0 then Fault
  else if (Z.to_nat i <? length l)%nat then Val (<[Z.to_nat i := x]> l)
  else Fault.

(** [alphasort] compares entry names with [strcoll]; in the "C" locale,
    which the library never leaves, that is the byte-wise order of
    [strcmp]. *)
Definition alphasort (a b : string) : comparison := String.compare a b.

Definition alpha_le (a b : string) : Prop := alphasort a b <> Gt.

#[global] Instance alpha_le_dec a b : Decision (alpha_le a b).
Proof. unfold alpha_le. destruct (alphasort a b); [left | left | right]; congruence. Defined.

(** The pseudo-entries the discovery loop skips. *)
Definition is_dot (d_name : string) : bool :=
  (d_name =? ".")%string || (d_name =? "..")%string.

(** [snprintf (sysfsname, sizeof (sysfsname), "%s/class/uio", sysfs)]:
    at most [PATH_MAX - 1] characters are stored. *)
Definition sysfsname_of (sysfs_mpoint : string) : string :=
  substring 0 (PATH_MAX - 1) (sysfs_mpoint ++ "/class/uio").

Definition sizeof_ptr : Z := 8.

Section Handling.
Context {W : Type} {E : Env W}.

Definition syscall (c : call) : M W Z :=
  fun s => let '(r, e, w) := sys_call c (world s) in
           Val (r, log (EvCall c r) (answer e w s)).

Definition factory (dir d_name : string) : M W (option uio_info_t) :=
  fun s => let '(r, e, w) := create_uio_info dir d_name (world s) in
           Val (r, log (EvFactory dir d_name r) (answer e w s)).

(** [scandir (dir, &namelist, 0, alphasort)]: no filter; the entries are
    sorted with the comparison function; -1 when the directory cannot be
    read. *)
Definition scandir (dir : string) : M W (Z * list string) :=
  fun s => let '(r, e, w) := sys_readdir dir (world s) in
           let s' := log (EvReaddir dir r) (answer e w s) in
           match r with
           | None => Val ((-1, []), s')
           | Some l => Val ((Z.of_nat (length l), merge_sort alpha_le l), s')
           end.

Definition uio_setsysfs_point (sysfs_mpoint : string) : M W unit :=
  fun s => Val (tt, mkState (world s) (errno s) sysfs_mpoint (trace s)).

(** The loop of [uio_find_devices]: the variables it updates are [t] and
    the array [info]. *)
Definition find_devices_body (sysfsname : string) (namelist : list string)
    (i : Z) (acc : Z * list (option uio_info_t))
    : M W (Z * list (option uio_info_t)) :=
  let '(t, info) := acc in
  let* d_name := lift (array_get namelist i) in
  if is_dot d_name then ret (t, info)
  else
    let* r := factory sysfsname d_name in
    let* info' := lift (array_set info t r) in
    ret (t + 1, info').

(** The result is the null pointer ([None]) or the array obtained from
    [calloc], whose [nr] elements start out null.  Releasing [namelist]
    at [out:] is not modelled, and nothing is stated about [errno] on
    the paths that go through it. *)
Definition uio_find_devices : M W (option (list (option uio_info_t))) :=
  let* mpoint := get_sysfs in
  let sysfsname := sysfsname_of mpoint in
  let* (nr, namelist) := scandir sysfsname in
  if nr <? 0 then
    perror "scandir" ;; ret None
  else
    let* p := syscall (Calloc nr sizeof_ptr) in
    if p =? NULL then
      set_errno ENOMEM ;; perror "calloc" ;; ret None
    else
      let* (_, info) := for_range nr (find_devices_body sysfsname namelist)
                           (0, replicate (Z.to_nat nr) None) in
      ret (Some info).

(** One iteration of the mapping loop of [uio_open]. *)
Definition open_body (fd : Z) (i : Z) (inf : uio_info_t) : M W uio_info_t :=
  let* m := lift (array_get (i_maps inf) i) in
  let* p := syscall (Mmap NULL (m_size m) (Z.lor PROT_READ PROT_WRITE)
                          MAP_SHARED fd i) in
  let* ms := lift (array_set (i_maps inf) i (set_m_map p m)) in
  ret (set_i_maps ms inf).

(** The functions that write through [info] return the descriptor as
    they leave it, next to their [int] result. *)
Definition uio_open (info : option uio_info_t)
    : M W (Z * option uio_info_t) :=
  match info with
  | None =>
      set_errno EINVAL ;; perror "uio_open" ;; ret (-1, None)
  | Some inf =>
      let* fd := syscall (Open (i_devname inf) O_RDWR) in
      if fd <? 0 then
        perror "open" ;; ret (-1, Some inf)
      else
        let* inf' := for_range (i_maxmap inf) (open_body fd) inf in
        ret (0, Some (set_i_fd fd inf'))
  end.

(** One iteration of the unmapping loop of [uio_close]. *)
Definition close_body (i : Z) (inf : uio_info_t) : M W uio_info_t :=
  let* m := lift (array_get (i_maps inf) i) in
  (if m_map m =? MAP_FAILED then ret 0
   else syscall (Munmap (m_map m) (m_size m))) ;;
  let* ms := lift (array_set (i_maps inf) i (set_m_map MAP_FAILED m)) in
  ret (set_i_maps ms inf).

Definition uio_close (info : option uio_info_t)
    : M W (Z * option uio_info_t) :=
  match info with
  | None =>
      set_errno EINVAL ;; perror "uio_close" ;; ret (-1, None)
  | Some inf =>
      let* inf' := for_range (i_maxmap inf) close_body inf in
      syscall (Close (i_fd inf')) ;;
      ret (0, Some inf')
  end.

(** [write (info->fd, &tmp, 4)]: the first four bytes of [tmp]. *)
Definition write_tmp (fd : Z) (tmp : Z) : M W Z :=
  syscall (Write fd (take 4 (ulong_bytes tmp))).

Definition uio_enable_irq (info : option uio_info_t) : M W Z :=
  let tmp := 1 in
  match info with
  | None => set_errno EINVAL ;; perror "uio_enable_irq" ;; ret (-1)
  | Some inf =>
      if i_fd inf =? -1 then
        set_errno EINVAL ;; perror "uio_enable_irq" ;; ret (-1)
      else
        let* n := write_tmp (i_fd inf) tmp in
        ret (if n =? 4 then 0 else -1)
  end.

Definition uio_disable_irq (info : option uio_info_t) : M W Z :=
  let tmp := 0 in
  match info with
  | None => set_errno EINVAL ;; perror "uio_disable_irq" ;; ret (-1)
  | Some inf =>
      if i_fd inf =? -1 then
        set_errno EINVAL ;; perror "uio_disable_irq" ;; ret (-1)
      else
        let* n := write_tmp (i_fd inf) tmp in
        ret (if n =? 4 then 0 else -1)
  end.

(** [FD_SET (fd, &rfds)] on the local [fd_set], which has [FD_SETSIZE]
    bits: a handle below 0 or from [FD_SETSIZE] on is an access outside
    the object. *)
Definition fd_set_of (fd : Z) : res (list Z) :=
  if (fd <? 0) || (fd >=? FD_SETSIZE) then Fault else Val [fd].

(** The [if (timeout)] block of [uio_irqwait_timeout]: [Some v] when the
    [switch] returns [v], [None] when control falls out of the block.
    [FD_ZERO] and [FD_SET] leave [fd] alone in the set handed to [select];
    [case 0] assigns [errno] and falls through to [case -1]. *)
Definition irqwait_select (fd : Z) (timeout : option timeval)
    : M W (option Z) :=
  match timeout with
  | None => ret None
  | Some tv =>
      let* rfds := lift (fd_set_of fd) in
      let* r := syscall (Select (fd + 1) rfds tv) in
      if r =? 0 then set_errno ETIMEDOUT ;; ret (Some (-1))
      else if r =? -1 then ret (Some (-1))
      else ret None
  end.

Definition uio_irqwait_timeout (info : option uio_info_t)
    (timeout : option timeval) : M W Z :=
  match info with
  | None => set_errno EINVAL ;; perror "uio_irqwait_timeout" ;; ret (-1)
  | Some inf =>
      if i_fd inf =? -1 then
        set_errno EINVAL ;; perror "uio_irqwait_timeout" ;; ret (-1)
      else
        let* early := irqwait_select (i_fd inf) timeout in
        match early with
        | Some v => ret v
        | None =>
            let* n := syscall (Read (i_fd inf) 4) in
            let r := int_of n in
            ret (if r <? 0 then r else 0)
        end
  end.

End Handling.

(** [uio_open] followed immediately by [uio_close] on the descriptor it
    leaves. *)
Definition open_close {W} {E : Env W} (info : option uio_info_t)
    : M W (Z * option uio_info_t) :=
  let* (_, info1) := uio_open info in
  uio_close info1.

(** ** Reading a trace *)

(** The page offsets (the map indices) of the mapping calls of a trace. *)
Definition mmap_offsets (tr : list event) : list Z :=
  omap (fun e => match e with
                 | EvCall (Mmap _ _ _ _ _ off) _ => Some off
                 | _ => None
                 end) tr.

(** The event of the mapping call for index [i]. *)
Definition mmap_event (fd : Z) (i : nat) (mr : uio_map_t * Z) : event :=
  EvCall (Mmap NULL (m_size mr.1) (Z.lor PROT_READ PROT_WRITE) MAP_SHARED
               fd (Z.of_nat i)) mr.2.

Definition munmap_event (m : uio_map_t) (r : Z) : event :=
  EvCall (Munmap (m_map m) (m_size m)) r.

Definition mapped (m : uio_map_t) : bool := negb (m_map m =? MAP_FAILED).

(** A mapping facility that refuses requests of length 0, as [mmap] does
    on Linux. *)
Definition rejects_empty_mappings {W} (E : Env W) : Prop :=
  forall addr prot flags fd off w,
    (sys_call (Mmap addr 0 prot flags fd off) w).1.1 = MAP_FAILED.

(** ** A small concrete environment

    A fixed outside world: the answers are read off a table, mappings of
    length 0 are refused, and the factory builds a two-map descriptor for
    every entry. *)

Record sim := {
  sim_dir : option (list string);
  sim_calloc : Z;
  sim_open : Z;
  sim_munmap : Z;
  sim_select : Z;
  sim_read : Z;
  sim_write : Z
}.

Definition sim_info (devname : string) : uio_info_t :=
  {| i_name := Some "uio_demo"%string;
     i_version := Some "0.1"%string;
     i_maps := [ {| m_addr := 0xfe000000; m_size := 4096; m_offset := 0;
                    m_map := MAP_FAILED |};
                 {| m_addr := 0; m_size := 0; m_offset := 0;
                    m_map := MAP_FAILED |} ];
     i_devname := Some devname;
     i_devid := 243 * 256;
     i_maxmap := 2;
     i_fd := -1 |}.

Definition demo_info : uio_info_t := sim_info "/dev/uio0".

Definition sim_call (c : call) (w : sim) : Z * option Z * sim :=
  match c with
  | Open _ _ => (sim_open w, if sim_open w <? 0 then Some 2 else None, w)
  | Mmap _ len _ _ _ off =>
      if len =? 0 then (MAP_FAILED, Some EINVAL, w)
      else (0x7f0000000000 + 0x10000 * off, None, w)
  | Munmap _ _ =>
      (sim_munmap w, if sim_munmap w <? 0 then Some EINVAL else None, w)
  | Close _ => (0, None, w)
  | Write _ _ => (sim_write w, None, w)
  | Read _ _ => (sim_read w, if sim_read w <? 0 then Some 5 else None, w)
  | Select _ _ _ => (sim_select w, if sim_select w <? 0 then Some 4 else None, w)
  | Calloc _ _ => (sim_calloc w, None, w)
  end.

#[global] Instance sim_env : Env sim := {
  sys_call := sim_call;
  sys_readdir _ w :=
    (sim_dir w, match sim_dir w with Some _ => None | None => Some 2 end, w);
  sys_perror _ _ w := (None, w);
  create_uio_info _ d_name w :=
    (Some (sim_info ("/dev/" ++ d_name)), None, w)
}.

Definition sim_world : sim :=
  {| sim_dir := Some ["uio0"; ".."; "uio2"; "."; "uio1"]%string;
     sim_calloc := 0x55550000;
     sim_open := 3;
     sim_munmap := 0;
     sim_select := 0;
     sim_read := 4;
     sim_write := 4 |}.

(** The same world, out of memory. *)
Definition sim_world_nomem : sim :=
  {| sim_dir := sim_dir sim_world; sim_calloc := NULL;
     sim_open := 3; sim_munmap := 0; sim_select := 0; sim_read := 4;
     sim_write := 4 |}.

(** A world in which every [munmap] fails. *)
Definition sim_world_stuck : sim :=
  {| sim_dir := sim_dir sim_world; sim_calloc := sim_calloc sim_world;
     sim_open := 3; sim_munmap := -1; sim_select := 0; sim_read := 4;
     sim_write := 4 |}.

(** A device node that cannot be opened. *)
Definition sim_world_noent : sim :=
  {| sim_dir := sim_dir sim_world; sim_calloc := sim_calloc sim_world;
     sim_open := -1; sim_munmap := 0; sim_select := 0; sim_read := 4;
     sim_write := 4 |}.

(** [demo_info] once opened on handle 3, map 0 mapped. *)
Definition demo_open : uio_info_t :=
  {| i_name := i_name demo_info;
     i_version := i_version demo_info;
     i_maps := [ {| m_addr := 0xfe000000; m_size := 4096; m_offset := 0;
                    m_map := 0x7f0000000000 |};
                 {| m_addr := 0; m_size := 0; m_offset := 0;
                    m_map := MAP_FAILED |} ];
     i_devname := i_devname demo_info;
     i_devid := i_devid demo_info;
     i_maxmap := 2;
     i_fd := 3 |}.

Definition sim_state (w : sim) : state sim :=
  mkState w 0 "/sys"%string [].


(** ** Vocabulary of the statements *)

(** A descriptor that is absent or whose file handle is the closed
    sentinel. *)
Definition not_open (info : option uio_info_t) : Prop :=
  match info with
  | None => True
  | Some inf => i_fd inf = -1
  end.

(** The state after [errno = EINVAL; perror (msg)]: the diagnostic for
    [EINVAL] is the only thing that went outside. *)
Definition rejected {W} {E : Env W} (msg : string) (s : state W) : state W :=
  diagnosed msg (mkState (world s) EINVAL (sysfs s) (trace s)).

(** The state after the call [c] was answered with [r], [e] and [w]. *)
Definition called {W} (c : call) (r : Z) (e : option Z) (w : W)
    (s : state W) : state W :=
  mkState w (default (errno s) e) (sysfs s) (trace s ++ [EvCall c r]).

(** [out] is the outcome of reading the four-byte event counter in state
    [s1]: the read is issued, a negative result is handed back, any other
    result gives 0. *)
Definition reads_counter {W} {E : Env W} (fd : Z) (s1 : state W)
    (out : res (Z * state W)) : Prop :=
  forall n e w,
    sys_call (Read fd 4) (world s1) = (n, e, w) ->
    exists v,
      out = Val (v, called (Read fd 4) n e w s1) /\
      (INT_MIN <= n <= INT_MAX ->
       (v < 0 <-> n < 0) /\ (0 <= n -> v = 0) /\ (n < 0 -> v = n)).

(** The entries the discovery loop hands to the factory. *)
Definition not_dot (d_name : string) : bool := negb (is_dot d_name).

(** The state in which a program starts: [sysfs] points to "/sys" and
    nothing has been called. *)
Definition start_state {W} (w : W) : state W :=
  mkState w 0 "/sys"%string [].

(** The entry names handed to the factory in a trace, oldest first. *)
Definition factory_names (tr : list event) : list string :=
  omap (fun e => match e with
                 | EvFactory _ d_name _ => Some d_name
                 | _ => None
                 end) tr.

(** The events [uio_open] can leave: [open], [mmap] and the diagnostic. *)
Definition acquires (e : event) : bool :=
  match e with
  | EvCall (Open _ _) _ => true
  | EvCall (Mmap _ _ _ _ _ _) _ => true
  | EvPerror _ _ => true
  | _ => false
  end.

(** The events discovery in directory [dir] can leave after its listing:
    the allocation, factory calls for [dir], and the diagnostic. *)
Definition discovers (dir : string) (e : event) : bool :=
  match e with
  | EvCall (Calloc _ _) _ => true
  | EvFactory dir' _ _ => (dir' =? dir)%string
  | EvPerror _ _ => true
  | _ => false
  end.

(** A mapping call that did not fail. *)
Definition mapping_ok (r : Z) : bool := negb (r =? MAP_FAILED).

(** The concrete world with its directory listed in another order. *)
Definition sim_world_shuffled : sim :=
  {| sim_dir := Some [".."; "uio0"; "uio2"; "."; "uio1"]%string;
     sim_calloc := sim_calloc sim_world;
     sim_open := 3; sim_munmap := 0; sim_select := 0; sim_read := 4;
     sim_write := 4 |}.

(** * Properties *)

(** ** Accessors *)

Lemma array_get_negative {A} (l : list A) i : i < 0 -> array_get l i = Fault.
Proof.
  intros Hi. unfold array_get.
  destruct (Z.ltb_spec i 0); [reflexivity | lia].
Qed.

Lemma array_get_Some {A} (l : list A) (k : nat) x :
  l !! k = Some x -> array_get l (Z.of_nat k) = Val x.
Proof.
  intros Hk. unfold array_get.
  destruct (Z.ltb_spec (Z.of_nat k) 0); [lia |].
  rewrite Nat2Z.id, Hk. reflexivity.
Qed.

(** Without a descriptor every accessor answers with its neutral value. *)
Lemma accessors_null map :
  uio_get_mem_size None map = Val 0 /\ uio_get_offset None map = Val 0 /\
  uio_get_mem_addr None map = Val 0 /\ uio_get_mem_map None map = Val NULL /\
  uio_get_name None = None /\ uio_get_devname None = None /\
  uio_get_version None = None /\ uio_get_major None = 0 /\
  uio_get_minor None = 0 /\ uio_get_devid None = 0 /\ uio_get_maxmap None = 0.
Proof. repeat split. Qed.

(** An index at or above [maxmap] is answered with the neutral value. *)
Lemma accessors_index_above inf map :
  i_maxmap inf <= map ->
  uio_get_mem_size (Some inf) map = Val 0 /\
  uio_get_offset (Some inf) map = Val 0 /\
  uio_get_mem_addr (Some inf) map = Val 0 /\
  uio_get_mem_map (Some inf) map = Val NULL.
Proof.
  intros Hge. unfold uio_get_mem_size, uio_get_offset, uio_get_mem_addr,
    uio_get_mem_map.
  destruct (Z.geb_spec map (i_maxmap inf)); [| lia]. repeat split.
Qed.

(** A negative index passes the guard [map >= info->maxmap] whenever
    [maxmap] is not negative, and the array is read before its start. *)
Lemma accessors_index_negative inf map :
  map < 0 -> 0 <= i_maxmap inf ->
  uio_get_mem_size (Some inf) map = Fault /\
  uio_get_offset (Some inf) map = Fault /\
  uio_get_mem_addr (Some inf) map = Fault /\
  uio_get_mem_map (Some inf) map = Fault.
Proof.
  intros Hneg Hmax. unfold uio_get_mem_size, uio_get_offset,
    uio_get_mem_addr, uio_get_mem_map.
  destruct (Z.geb_spec map (i_maxmap inf)); [lia |].
  rewrite array_get_negative by assumption. repeat split.
Qed.

(** C3: the per-map accessors are not total on negative indices.  On the
    two-map descriptor [demo_info], index [-1] passes the guard
    [map >= info->maxmap] of each of them and [info->maps [-1]] is read,
    outside the array: no neutral value is returned. *)
Theorem accessors_negative_index_reads_outside :
  uio_get_mem_size (Some demo_info) (-1) = Fault /\
  uio_get_offset (Some demo_info) (-1) = Fault /\
  uio_get_mem_addr (Some demo_info) (-1) = Fault /\
  uio_get_mem_map (Some demo_info) (-1) = Fault /\
  uio_get_mem_size (Some demo_info) (-1) <> Val 0.
Proof. repeat split. discriminate. Qed.

(** ** Interrupt control *)

Lemma tmp_bytes_enable : take 4 (ulong_bytes 1) = [1; 0; 0; 0].
Proof. reflexivity. Qed.

Lemma tmp_bytes_disable : take 4 (ulong_bytes 0) = [0; 0; 0; 0].
Proof. reflexivity. Qed.

Lemma int_of_id n : INT_MIN <= n <= INT_MAX -> int_of n = n.
Proof.
  unfold INT_MIN, INT_MAX, int_of. intros Hn.
  rewrite Z.mod_small by lia. lia.
Qed.

Section Interrupts.
Context {W : Type} {E : Env W}.

Lemma syscall_eq c r e w (s : state W) :
  sys_call c (world s) = (r, e, w) ->
  syscall c s = Val (r, called c r e w s).
Proof. intros Hc. unfold syscall. rewrite Hc. reflexivity. Qed.

(** What [perror] leaves: one more event, carrying the [errno] it was
    called with; [errno] and the outside world as the C library answers. *)
Lemma diagnosed_spec msg (s : state W) :
  trace (diagnosed msg s) = trace s ++ [EvPerror msg (errno s)] /\
  errno (diagnosed msg s) =
    default (errno s) (sys_perror msg (errno s) (world s)).1 /\
  world (diagnosed msg s) = (sys_perror msg (errno s) (world s)).2 /\
  sysfs (diagnosed msg s) = sysfs s.
Proof.
  unfold diagnosed. destruct (sys_perror msg (errno s) (world s)) as [e w].
  repeat split.
Qed.

Lemma rejected_spec msg (s : state W) :
  trace (rejected msg s) = trace s ++ [EvPerror msg EINVAL] /\
  errno (rejected msg s) = default EINVAL (sys_perror msg EINVAL (world s)).1 /\
  world (rejected msg s) = (sys_perror msg EINVAL (world s)).2 /\
  sysfs (rejected msg s) = sysfs s.
Proof.
  unfold rejected.
  exact (diagnosed_spec msg (mkState (world s) EINVAL (sysfs s) (trace s))).
Qed.

Lemma enable_irq_not_open info (s : state W) :
  not_open info ->
  uio_enable_irq info s = Val (-1, rejected "uio_enable_irq" s).
Proof.
  destruct info as [inf |]; simpl; intros Hfd; [| reflexivity].
  rewrite Hfd. reflexivity.
Qed.

Lemma disable_irq_not_open info (s : state W) :
  not_open info ->
  uio_disable_irq info s = Val (-1, rejected "uio_disable_irq" s).
Proof.
  destruct info as [inf |]; simpl; intros Hfd; [| reflexivity].
  rewrite Hfd. reflexivity.
Qed.

Lemma enable_irq_open inf (s : state W) n e w :
  i_fd inf <> -1 ->
  sys_call (Write (i_fd inf) [1; 0; 0; 0]) (world s) = (n, e, w) ->
  uio_enable_irq (Some inf) s =
    Val (if n =? 4 then 0 else -1,
         called (Write (i_fd inf) [1; 0; 0; 0]) n e w s).
Proof.
  intros Hfd Hc. unfold uio_enable_irq.
  destruct (Z.eqb_spec (i_fd inf) (-1)); [contradiction |].
  unfold bind, write_tmp. rewrite tmp_bytes_enable.
  rewrite (syscall_eq _ _ _ _ _ Hc). reflexivity.
Qed.

Lemma disable_irq_open inf (s : state W) n e w :
  i_fd inf <> -1 ->
  sys_call (Write (i_fd inf) [0; 0; 0; 0]) (world s) = (n, e, w) ->
  uio_disable_irq (Some inf) s =
    Val (if n =? 4 then 0 else -1,
         called (Write (i_fd inf) [0; 0; 0; 0]) n e w s).
Proof.
  intros Hfd Hc. unfold uio_disable_irq.
  destruct (Z.eqb_spec (i_fd inf) (-1)); [contradiction |].
  unfold bind, write_tmp. rewrite tmp_bytes_disable.
  rewrite (syscall_eq _ _ _ _ _ Hc). reflexivity.
Qed.

(** C7: [uio_enable_irq] and [uio_disable_irq] on an absent descriptor
    or on one whose file handle is -1 assign [errno = EINVAL], print the
    diagnostic for it and return -1; the diagnostic is the only thing that
    goes outside (no [write]), and on return [errno] is [EINVAL] unless
    [perror] itself assigned it.  Otherwise each issues one [write] of
    four bytes to the file handle, the little-endian image of 1 (enable)
    or 0 (disable), and returns 0 exactly when that [write] returned 4,
    -1 otherwise. *)
Theorem uio_irq_toggle_spec (info : option uio_info_t) (s : state W) :
  (not_open info ->
     exists s1 s0,
       uio_enable_irq info s = Val (-1, s1) /\
       uio_disable_irq info s = Val (-1, s0) /\
       trace s1 = trace s ++ [EvPerror "uio_enable_irq" EINVAL] /\
       trace s0 = trace s ++ [EvPerror "uio_disable_irq" EINVAL] /\
       errno s1 =
         default EINVAL (sys_perror "uio_enable_irq" EINVAL (world s)).1 /\
       errno s0 =
         default EINVAL (sys_perror "uio_disable_irq" EINVAL (world s)).1 /\
       world s1 = (sys_perror "uio_enable_irq" EINVAL (world s)).2 /\
       world s0 = (sys_perror "uio_disable_irq" EINVAL (world s)).2) /\
  (forall inf, info = Some inf -> i_fd inf <> -1 ->
     exists buf1 buf0,
       length buf1 = 4%nat /\ le_value buf1 = 1 /\
       length buf0 = 4%nat /\ le_value buf0 = 0 /\
       (forall n e w,
          sys_call (Write (i_fd inf) buf1) (world s) = (n, e, w) ->
          exists v,
            uio_enable_irq info s =
              Val (v, called (Write (i_fd inf) buf1) n e w s) /\
            (v = 0 <-> n = 4) /\ (v = -1 <-> n <> 4)) /\
       (forall n e w,
          sys_call (Write (i_fd inf) buf0) (world s) = (n, e, w) ->
          exists v,
            uio_disable_irq info s =
              Val (v, called (Write (i_fd inf) buf0) n e w s) /\
            (v = 0 <-> n = 4) /\ (v = -1 <-> n <> 4))).
Proof.
  split.
  - intros Hno.
    exists (rejected "uio_enable_irq" s), (rejected "uio_disable_irq" s).
    rewrite enable_irq_not_open, disable_irq_not_open by assumption.
    destruct (rejected_spec "uio_enable_irq" s) as (T1 & E1 & W1 & _).
    destruct (rejected_spec "uio_disable_irq" s) as (T0 & E0 & W0 & _).
    repeat (split; [first [reflexivity | assumption] |]). assumption.
  - intros inf -> Hfd. exists [1; 0; 0; 0], [0; 0; 0; 0].
    repeat (split; [reflexivity |]).
    split; intros n e w Hc; exists (if n =? 4 then 0 else -1).
    + rewrite (enable_irq_open _ _ _ _ _ Hfd Hc).
      split; [reflexivity |]. destruct (Z.eqb_spec n 4); lia.
    + rewrite (disable_irq_open _ _ _ _ _ Hfd Hc).
      split; [reflexivity |]. destruct (Z.eqb_spec n 4); lia.
Qed.

End Interrupts.

(** ** Waiting for an interrupt *)

Section Waiting.
Context {W : Type} {E : Env W}.

Lemma read_counter_outcome fd (s1 : state W) :
  reads_counter fd s1
    (bind (syscall (Read fd 4))
          (fun n => let r := int_of n in ret (if r <? 0 then r else 0)) s1).
Proof.
  intros n e w Hc. unfold bind. rewrite (syscall_eq _ _ _ _ _ Hc).
  eexists. split; [reflexivity |].
  intros Hn. simpl. rewrite (int_of_id _ Hn).
  destruct (Z.ltb_spec n 0); lia.
Qed.

Lemma irqwait_no_timeout inf (s : state W) :
  i_fd inf <> -1 ->
  reads_counter (i_fd inf) s (uio_irqwait_timeout (Some inf) None s).
Proof.
  intros Hfd. unfold uio_irqwait_timeout.
  destruct (Z.eqb_spec (i_fd inf) (-1)); [contradiction |].
  apply read_counter_outcome.
Qed.

Lemma fd_set_of_in_range fd :
  0 <= fd < FD_SETSIZE -> fd_set_of fd = Val [fd].
Proof.
  intros Hfd. unfold fd_set_of.
  destruct (Z.ltb_spec fd 0); [lia |].
  destruct (Z.geb_spec fd FD_SETSIZE); [lia | reflexivity].
Qed.

Lemma fd_set_of_outside fd :
  fd < 0 \/ FD_SETSIZE <= fd -> fd_set_of fd = Fault.
Proof.
  intros Hfd. unfold fd_set_of.
  destruct (Z.ltb_spec fd 0); [reflexivity |].
  destruct (Z.geb_spec fd FD_SETSIZE); [reflexivity | lia].
Qed.

Lemma irqwait_select_eq inf tv (s : state W) r e w :
  0 <= i_fd inf < FD_SETSIZE ->
  sys_call (Select (i_fd inf + 1) [i_fd inf] tv) (world s) = (r, e, w) ->
  irqwait_select (i_fd inf) (Some tv) s =
    let s1 := called (Select (i_fd inf + 1) [i_fd inf] tv) r e w s in
    if r =? 0 then
      Val (Some (-1), mkState (world s1) ETIMEDOUT (sysfs s1) (trace s1))
    else if r =? -1 then Val (Some (-1), s1)
    else Val (None, s1).
Proof.
  intros Hfd Hc. unfold irqwait_select, bind.
  rewrite (fd_set_of_in_range _ Hfd). unfold lift.
  rewrite (syscall_eq _ _ _ _ _ Hc). simpl.
  destruct (r =? 0); [reflexivity |]. destruct (r =? -1); reflexivity.
Qed.

Lemma irqwait_timed inf tv (s : state W) r e w :
  0 <= i_fd inf < FD_SETSIZE ->
  sys_call (Select (i_fd inf + 1) [i_fd inf] tv) (world s) = (r, e, w) ->
  let s1 := called (Select (i_fd inf + 1) [i_fd inf] tv) r e w s in
  uio_irqwait_timeout (Some inf) (Some tv) s =
    if r =? 0 then
      Val (-1, mkState (world s1) ETIMEDOUT (sysfs s1) (trace s1))
    else if r =? -1 then Val (-1, s1)
    else bind (syscall (Read (i_fd inf) 4))
           (fun n => let r := int_of n in ret (if r <? 0 then r else 0)) s1.
Proof.
  intros Hfd Hc s1. unfold uio_irqwait_timeout.
  destruct (Z.eqb_spec (i_fd inf) (-1)); [lia |].
  unfold bind at 1. rewrite (irqwait_select_eq _ _ _ _ _ _ Hfd Hc).
  fold s1. cbv zeta.
  destruct (r =? 0); [reflexivity |]. destruct (r =? -1); reflexivity.
Qed.

(** A timed wait on a handle that does not fit the [fd_set]: [FD_SET]
    writes outside [rfds]. *)
Lemma irqwait_timed_overrun inf tv (s : state W) :
  i_fd inf <> -1 ->
  i_fd inf < 0 \/ FD_SETSIZE <= i_fd inf ->
  uio_irqwait_timeout (Some inf) (Some tv) s = Fault.
Proof.
  intros Hfd Hout. unfold uio_irqwait_timeout.
  destruct (Z.eqb_spec (i_fd inf) (-1)); [contradiction |].
  unfold bind at 1. unfold irqwait_select, bind at 1.
  rewrite (fd_set_of_outside _ Hout). reflexivity.
Qed.

(** C6: [uio_irqwait_timeout] on a descriptor whose file handle is not
    -1.  With a timeout and a file handle that fits an [fd_set]
    (0 <= fd < [FD_SETSIZE]), [select] is called on the file handle: when
    it returns 0 the function returns -1 with [errno = ETIMEDOUT] and does
    not read; when it returns -1 the function returns -1 and [errno] is
    whatever [select] left, and it does not read; on any other result,
    and when no timeout is given, it reads 4 bytes and returns the read
    result when that is negative and 0 for every other read result, a
    short read included.  With a timeout and a handle outside that range,
    [FD_SET] writes outside the set. *)
Theorem uio_irqwait_timeout_spec (inf : uio_info_t)
    (timeout : option timeval) (s : state W) :
  i_fd inf <> -1 ->
  (timeout = None ->
     reads_counter (i_fd inf) s (uio_irqwait_timeout (Some inf) timeout s)) /\
  (forall tv r e w,
     timeout = Some tv ->
     0 <= i_fd inf < FD_SETSIZE ->
     sys_call (Select (i_fd inf + 1) [i_fd inf] tv) (world s) = (r, e, w) ->
     let s1 := called (Select (i_fd inf + 1) [i_fd inf] tv) r e w s in
     (r = 0 ->
        exists s',
          uio_irqwait_timeout (Some inf) timeout s = Val (-1, s') /\
          errno s' = ETIMEDOUT /\ world s' = w /\ trace s' = trace s1) /\
     (r = -1 ->
        uio_irqwait_timeout (Some inf) timeout s = Val (-1, s1) /\
        errno s1 = default (errno s) e /\
        (forall err, e = Some err -> err <> ETIMEDOUT ->
           errno s1 <> ETIMEDOUT)) /\
     (r <> 0 -> r <> -1 ->
        reads_counter (i_fd inf) s1
          (uio_irqwait_timeout (Some inf) timeout s))) /\
  (forall tv,
     timeout = Some tv ->
     i_fd inf < 0 \/ FD_SETSIZE <= i_fd inf ->
     uio_irqwait_timeout (Some inf) timeout s = Fault).
Proof.
  intros Hfd. split; [| split].
  - intros ->. apply irqwait_no_timeout. assumption.
  - intros tv r e w -> Hin Hc s1.
    pose proof (irqwait_timed _ _ _ _ _ _ Hin Hc) as Hrun.
    fold s1 in Hrun. cbv zeta in Hrun.
    split; [| split].
    + intros Hr. rewrite Hrun. subst r. simpl. eexists.
      split; [reflexivity |]. split; [| split]; reflexivity.
    + intros Hr. rewrite Hrun. subst r.
      split; [reflexivity |]. split; [reflexivity |].
      intros err -> Herr. exact Herr.
    + intros H0 H1. rewrite Hrun.
      destruct (Z.eqb_spec r 0); [contradiction |].
      destruct (Z.eqb_spec r (-1)); [contradiction |].
      apply read_counter_outcome.
  - intros tv -> Hout. apply irqwait_timed_overrun; assumption.
Qed.

End Waiting.

(** In the concrete world [select] reports that the deadline elapsed: the
    wait fails with [ETIMEDOUT] and nothing is read. *)
Lemma uio_irqwait_timeout_spec_witness :
  let inf := set_i_fd 3 demo_info in
  let tv := {| tv_sec := 0; tv_usec := 0 |} in
  i_fd inf <> -1 /\
  0 <= i_fd inf < FD_SETSIZE /\
  exists s',
    uio_irqwait_timeout (Some inf) (Some tv) (sim_state sim_world) =
      Val (-1, s') /\
    errno s' = ETIMEDOUT /\ world s' = sim_world /\
    trace s' = [EvCall (Select 4 [3] tv) 0].
Proof.
  intros inf tv.
  assert (Hfd : i_fd inf <> -1) by (simpl; lia).
  assert (Hin : 0 <= i_fd inf < FD_SETSIZE) by (unfold FD_SETSIZE; simpl; lia).
  split; [exact Hfd |]. split; [exact Hin |].
  destruct (uio_irqwait_timeout_spec inf (Some tv) (sim_state sim_world) Hfd)
    as (_ & Htimed & _).
  destruct (Htimed tv 0 None sim_world eq_refl Hin eq_refl) as [Hzero _].
  exact (Hzero eq_refl).
Defined.

(** ** Arrays and loops *)

Lemma array_get_middle {A} (pre suf : list A) x :
  array_get (pre ++ x :: suf) (Z.of_nat (length pre)) = Val x.
Proof. apply array_get_Some, list_lookup_middle. reflexivity. Qed.

Lemma array_set_middle {A} (pre suf : list A) x y :
  array_set (pre ++ x :: suf) (Z.of_nat (length pre)) y = Val (pre ++ y :: suf).
Proof.
  unfold array_set. destruct (Z.ltb_spec (Z.of_nat (length pre)) 0); [lia |].
  rewrite Nat2Z.id.
  destruct (Nat.ltb_spec (length pre) (length (pre ++ x :: suf))) as [_ | Hge].
  - rewrite insert_app_r_alt by lia. rewrite Nat.sub_diag. reflexivity.
  - rewrite length_app in Hge. simpl in Hge. lia.
Qed.

Lemma set_i_maps_id inf : set_i_maps (i_maps inf) inf = inf.
Proof. destruct inf. reflexivity. Qed.

Lemma for_loop_S {W S} n i (body : Z -> S -> M W S) acc s :
  for_loop (Datatypes.S n) i body acc s =
  match body i acc s with
  | Val (acc', s') => for_loop n (i + 1) body acc' s'
  | Fault => Fault
  end.
Proof. reflexivity. Qed.

Section Mapping.
Context {W : Type} {E : Env W}.

Lemma open_body_step fd pre m suf inf (s : state W) p e w :
  i_maps inf = pre ++ m :: suf ->
  sys_call (Mmap NULL (m_size m) (Z.lor PROT_READ PROT_WRITE) MAP_SHARED fd
                 (Z.of_nat (length pre))) (world s) = (p, e, w) ->
  open_body fd (Z.of_nat (length pre)) inf s =
    Val (set_i_maps (pre ++ set_m_map p m :: suf) inf,
         called (Mmap NULL (m_size m) (Z.lor PROT_READ PROT_WRITE)
                      MAP_SHARED fd (Z.of_nat (length pre))) p e w s).
Proof.
  intros Hmaps Hc. unfold open_body, bind.
  rewrite Hmaps, array_get_middle. simpl.
  rewrite (syscall_eq _ _ _ _ _ Hc).
  rewrite array_set_middle. reflexivity.
Qed.

(** The mapping loop from index [length pre] on: one call per remaining
    element, none of which ends the loop; each element receives the
    answer to its call. *)
Lemma open_loop fd suf : forall pre inf (s : state W),
  i_maps inf = pre ++ suf ->
  exists rs s',
    for_loop (length suf) (Z.of_nat (length pre)) (open_body fd) inf s =
      Val (set_i_maps (pre ++ zip_with set_m_map rs suf) inf, s') /\
    length rs = length suf /\
    trace s' =
      trace s ++ imap (fun k => mmap_event fd (length pre + k)) (zip suf rs) /\
    sysfs s' = sysfs s /\
    (forall k m r, suf !! k = Some m -> rs !! k = Some r ->
       exists w, (sys_call (Mmap NULL (m_size m) (Z.lor PROT_READ PROT_WRITE)
                                 MAP_SHARED fd (Z.of_nat (length pre + k)))
                           w).1.1 = r).
Proof.
  induction suf as [| m suf IH]; intros pre inf s Hmaps.
  - exists [], s. simpl. rewrite app_nil_r in *.
    rewrite <- Hmaps, set_i_maps_id, app_nil_r.
    repeat split; try reflexivity. intros k m r Hk. discriminate.
  - destruct (sys_call (Mmap NULL (m_size m) (Z.lor PROT_READ PROT_WRITE)
                MAP_SHARED fd (Z.of_nat (length pre))) (world s))
      as [[p e] w] eqn:Hc.
    change (length (m :: suf)) with (S (length suf)).
    rewrite for_loop_S, (open_body_step _ _ _ _ _ _ _ _ _ Hmaps Hc).
    set (inf1 := set_i_maps (pre ++ set_m_map p m :: suf) inf).
    set (s1 := called _ p e w s).
    destruct (IH (pre ++ [set_m_map p m]) inf1 s1)
      as (rs & s' & Hrun & Hlen & Htr & Hfs & Hgen).
    { unfold inf1. simpl. rewrite <- app_assoc. reflexivity. }
    exists (p :: rs), s'.
    assert (Hpre : Z.of_nat (length pre) + 1 =
                   Z.of_nat (length (pre ++ [set_m_map p m]))).
    { rewrite length_app. simpl. lia. }
    rewrite Hpre, Hrun. split; [| split; [| split; [| split]]].
    + unfold inf1. simpl. rewrite <- app_assoc. reflexivity.
    + simpl. rewrite Hlen. reflexivity.
    + rewrite Htr. unfold s1, called. simpl. rewrite <- app_assoc.
      f_equal. simpl. unfold mmap_event at 2. simpl.
      rewrite Nat.add_0_r. f_equal.
      apply imap_ext. intros k x _. simpl.
      rewrite length_app. simpl. f_equal. lia.
    + rewrite Hfs. reflexivity.
    + intros [| k] m' r Hm Hr; simpl in Hm, Hr.
      * injection Hm as <-. injection Hr as <-. exists (world s).
        rewrite Nat.add_0_r, Hc. reflexivity.
      * destruct (Hgen k m' r Hm Hr) as [w' Hw']. exists w'.
        rewrite <- Hw'. rewrite length_app. simpl.
        do 4 f_equal. lia.
Qed.

Lemma close_body_step pre m suf inf (s : state W) :
  i_maps inf = pre ++ m :: suf ->
  close_body (Z.of_nat (length pre)) inf s =
    Val (set_i_maps (pre ++ set_m_map MAP_FAILED m :: suf) inf,
         if mapped m then
           let '(r, e, w) := sys_call (Munmap (m_map m) (m_size m)) (world s)
           in called (Munmap (m_map m) (m_size m)) r e w s
         else s).
Proof.
  intros Hmaps. unfold close_body, bind, mapped.
  rewrite Hmaps, array_get_middle. simpl.
  destruct (m_map m =? MAP_FAILED); simpl.
  - rewrite array_set_middle. reflexivity.
  - unfold syscall.
    destruct (sys_call (Munmap (m_map m) (m_size m)) (world s)) as [[r e] w].
    rewrite array_set_middle. reflexivity.
Qed.

(** The unmapping loop from index [length pre] on: [munmap] is called
    for the elements whose pointer is not [MAP_FAILED] and for no other,
    its result is ignored, and every pointer is set to [MAP_FAILED]. *)
Lemma close_loop suf : forall pre inf (s : state W),
  i_maps inf = pre ++ suf ->
  exists rs s',
    for_loop (length suf) (Z.of_nat (length pre)) close_body inf s =
      Val (set_i_maps (pre ++ (set_m_map MAP_FAILED <$> suf)) inf, s') /\
    length rs = length (List.filter mapped suf) /\
    trace s' = trace s ++ zip_with munmap_event (List.filter mapped suf) rs /\
    sysfs s' = sysfs s.
Proof.
  induction suf as [| m suf IH]; intros pre inf s Hmaps.
  - exists [], s. simpl. rewrite app_nil_r in *.
    rewrite <- Hmaps, set_i_maps_id, app_nil_r. repeat split.
  - change (length (m :: suf)) with (S (length suf)).
    rewrite for_loop_S, (close_body_step _ _ _ _ _ Hmaps).
    set (inf1 := set_i_maps (pre ++ set_m_map MAP_FAILED m :: suf) inf).
    assert (Hpre : Z.of_nat (length pre) + 1 =
                   Z.of_nat (length (pre ++ [set_m_map MAP_FAILED m]))).
    { rewrite length_app. simpl. lia. }
    assert (Hinf1 : i_maps inf1 = (pre ++ [set_m_map MAP_FAILED m]) ++ suf).
    { unfold inf1. simpl. rewrite <- app_assoc. reflexivity. }
    assert (Hres : forall ms,
              set_i_maps ((pre ++ [set_m_map MAP_FAILED m]) ++ ms) inf1 =
              set_i_maps (pre ++ set_m_map MAP_FAILED m :: ms) inf).
    { intros ms. unfold inf1. simpl. rewrite <- app_assoc. reflexivity. }
    rewrite Hpre. simpl List.filter. destruct (mapped m).
    + destruct (sys_call (Munmap (m_map m) (m_size m)) (world s))
        as [[r e] w].
      destruct (IH _ inf1 (called (Munmap (m_map m) (m_size m)) r e w s) Hinf1)
        as (rs & s' & Hrun & Hlen & Htr & Hfs).
      exists (r :: rs), s'. rewrite Hrun, Hres.
      split; [reflexivity |]. split; [simpl; rewrite Hlen; reflexivity |].
      split; [| rewrite Hfs; reflexivity].
      rewrite Htr. simpl. rewrite <- app_assoc. reflexivity.
    + destruct (IH _ inf1 s Hinf1) as (rs & s' & Hrun & Hlen & Htr & Hfs).
      exists rs, s'. rewrite Hrun, Hres. repeat split; assumption.
Qed.

End Mapping.

(** ** Opening and closing *)

Lemma mmap_offsets_events fd (ms : list uio_map_t) : forall (rs : list Z) i,
  length rs = length ms ->
  mmap_offsets (imap (fun k => mmap_event fd (i + k)) (zip ms rs)) =
  Z.of_nat <$> seq i (length ms).
Proof.
  induction ms as [| m ms IH]; intros [| r rs] i Hlen; try discriminate.
  - reflexivity.
  - simpl in Hlen. injection Hlen as Hlen.
    change (zip (m :: ms) (r :: rs)) with ((m, r) :: zip ms rs).
    rewrite imap_cons. simpl. rewrite Nat.add_0_r. f_equal.
    etransitivity; [| exact (IH rs (S i) Hlen)]. f_equal.
    apply imap_ext. intros k x _. simpl. f_equal. lia.
Qed.

Section OpenClose.
Context {W : Type} {E : Env W}.

Lemma uio_open_null (s : state W) :
  uio_open None s = Val ((-1, None), rejected "uio_open" s).
Proof. reflexivity. Qed.

Lemma uio_open_refused inf (s : state W) fd e w :
  sys_call (Open (i_devname inf) O_RDWR) (world s) = (fd, e, w) ->
  fd < 0 ->
  uio_open (Some inf) s =
    Val ((-1, Some inf),
         diagnosed "open" (called (Open (i_devname inf) O_RDWR) fd e w s)).
Proof.
  intros Hc Hfd. unfold uio_open, bind at 1.
  rewrite (syscall_eq _ _ _ _ _ Hc).
  destruct (Z.ltb_spec fd 0); [reflexivity | lia].
Qed.

Lemma uio_open_mapped inf (s : state W) fd e w :
  wf_info inf ->
  sys_call (Open (i_devname inf) O_RDWR) (world s) = (fd, e, w) ->
  0 <= fd ->
  exists rs s',
    uio_open (Some inf) s =
      Val ((0, Some (set_i_fd fd
                       (set_i_maps (zip_with set_m_map rs (i_maps inf)) inf))),
           s') /\
    length rs = length (i_maps inf) /\
    trace s' = trace s ++ EvCall (Open (i_devname inf) O_RDWR) fd ::
                 imap (mmap_event fd) (zip (i_maps inf) rs) /\
    sysfs s' = sysfs s /\
    (forall k m r, i_maps inf !! k = Some m -> rs !! k = Some r ->
       exists w', (sys_call (Mmap NULL (m_size m) (Z.lor PROT_READ PROT_WRITE)
                                  MAP_SHARED fd (Z.of_nat k)) w').1.1 = r).
Proof.
  intros Hwf Hc Hfd. unfold uio_open, bind at 1.
  rewrite (syscall_eq _ _ _ _ _ Hc).
  destruct (Z.ltb_spec fd 0); [lia |].
  unfold for_range, bind. rewrite <- Hwf, Nat2Z.id.
  destruct (open_loop fd (i_maps inf) [] inf
              (called (Open (i_devname inf) O_RDWR) fd e w s) eq_refl)
    as (rs & s' & Hrun & Hlen & Htr & Hfs & Hgen).
  change (Z.of_nat (length (@nil uio_map_t))) with 0 in Hrun.
  change (length (@nil uio_map_t) + ?k)%nat with k in Htr, Hgen.
  simpl in Hrun. rewrite Hrun. exists rs, s'.
  repeat split; try assumption.
  rewrite Htr. simpl. rewrite <- app_assoc. reflexivity.
Qed.

Lemma uio_close_null (s : state W) :
  uio_close None s = Val ((-1, None), rejected "uio_close" s).
Proof. reflexivity. Qed.

(** [uio_close] on a descriptor: the unmapping loop, then [close]. *)
Lemma uio_close_run inf (s : state W) :
  wf_info inf ->
  exists rs s1 r e w,
    uio_close (Some inf) s =
      Val ((0, Some (set_i_maps (set_m_map MAP_FAILED <$> i_maps inf) inf)),
           called (Close (i_fd inf)) r e w s1) /\
    length rs = length (List.filter mapped (i_maps inf)) /\
    trace s1 =
      trace s ++ zip_with munmap_event (List.filter mapped (i_maps inf)) rs /\
    sysfs s1 = sysfs s /\
    sys_call (Close (i_fd inf)) (world s1) = (r, e, w).
Proof.
  intros Hwf. unfold uio_close, for_range, bind at 1.
  rewrite <- Hwf, Nat2Z.id.
  destruct (close_loop (i_maps inf) [] inf s eq_refl)
    as (rs & s1 & Hrun & Hlen & Htr & Hfs).
  change (Z.of_nat (length (@nil uio_map_t))) with 0 in Hrun.
  simpl in Hrun. rewrite Hrun. simpl i_fd.
  destruct (sys_call (Close (i_fd inf)) (world s1)) as [[r e] w] eqn:Hc.
  exists rs, s1, r, e, w. unfold bind.
  rewrite (syscall_eq _ _ _ _ _ Hc). repeat split; assumption.
Qed.

Lemma closed_maps_unmapped (ms : list uio_map_t) :
  List.filter mapped (set_m_map MAP_FAILED <$> ms) = [].
Proof. induction ms as [| m ms IH]; [reflexivity | exact IH]. Qed.

Lemma closed_maps_sentinel (ms : list uio_map_t) :
  Forall (fun m => m_map m = MAP_FAILED) (set_m_map MAP_FAILED <$> ms).
Proof. induction ms; constructor; [reflexivity | assumption]. Qed.

Lemma closed_wf inf :
  wf_info inf ->
  wf_info (set_i_maps (set_m_map MAP_FAILED <$> i_maps inf) inf).
Proof. unfold wf_info. simpl. rewrite length_fmap. trivial. Qed.



End OpenClose.




Section Closing.
Context {W : Type} {E : Env W}.

(** C5: [uio_close] twice in a row on a descriptor: both calls return
    (with 0), every map pointer is [MAP_FAILED] after the first call and
    after the second, the first call unmaps exactly the slots whose
    pointer was not [MAP_FAILED], and the second call, finding every
    pointer at the sentinel, issues no [munmap] at all: its only call is
    the [close] of the file handle. *)
Theorem uio_close_twice inf (s : state W) :
  wf_info inf ->
  exists inf1 s1 inf2 s2 rs r1 r2,
    uio_close (Some inf) s = Val ((0, Some inf1), s1) /\
    uio_close (Some inf1) s1 = Val ((0, Some inf2), s2) /\
    length (i_maps inf1) = length (i_maps inf) /\
    Forall (fun m => m_map m = MAP_FAILED) (i_maps inf1) /\
    length (i_maps inf2) = length (i_maps inf) /\
    Forall (fun m => m_map m = MAP_FAILED) (i_maps inf2) /\
    length rs = length (List.filter mapped (i_maps inf)) /\
    trace s1 =
      trace s ++ zip_with munmap_event (List.filter mapped (i_maps inf)) rs
              ++ [EvCall (Close (i_fd inf)) r1] /\
    trace s2 = trace s1 ++ [EvCall (Close (i_fd inf)) r2].
Proof.
  intros Hwf.
  destruct (uio_close_run inf s Hwf)
    as (rs & t1 & r1 & e1 & w1 & Hrun1 & Hlen1 & Htr1 & _ & _).
  destruct (uio_close_run _ (called (Close (i_fd inf)) r1 e1 w1 t1)
              (closed_wf inf Hwf))
    as (rs2 & t2 & r2 & e2 & w2 & Hrun2 & Hlen2 & Htr2 & _ & _).
  simpl i_maps in Hlen2, Htr2. simpl i_fd in Hrun2.
  rewrite closed_maps_unmapped in Hlen2, Htr2.
  simpl in Htr2. rewrite app_nil_r in Htr2.
  set (inf1 := set_i_maps (set_m_map MAP_FAILED <$> i_maps inf) inf) in *.
  set (s1 := called (Close (i_fd inf)) r1 e1 w1 t1) in *.
  eexists inf1, s1, _, _, rs, r1, r2.
  split; [exact Hrun1 |]. split; [exact Hrun2 |].
  split; [apply length_fmap |]. split; [apply closed_maps_sentinel |].
  split; [simpl; rewrite !length_fmap; reflexivity |].
  split; [apply closed_maps_sentinel |]. split; [exact Hlen1 |].
  split.
  - unfold s1. simpl. rewrite Htr1, <- app_assoc. reflexivity.
  - simpl. rewrite Htr2. reflexivity.
Qed.

(** C9: [uio_close] returns -1 exactly when the descriptor is absent,
    after assigning [errno = EINVAL] and printing the diagnostic for it
    (on return [errno] is [EINVAL] unless [perror] itself assigned it).
    On every descriptor it returns 0: the results of [munmap] and [close]
    are never looked at, so no failure of theirs shows in the result. *)
Theorem uio_close_result (info : option uio_info_t) (s : state W) :
  (forall inf, info = Some inf -> wf_info inf) ->
  exists v info' s',
    uio_close info s = Val ((v, info'), s') /\
    (v = -1 <-> info = None) /\
    (info <> None -> v = 0) /\
    (info = None ->
       trace s' = trace s ++ [EvPerror "uio_close" EINVAL] /\
       errno s' = default EINVAL (sys_perror "uio_close" EINVAL (world s)).1).
Proof.
  intros Hwf. destruct info as [inf |].
  - destruct (uio_close_run inf s (Hwf inf eq_refl))
      as (rs & s1 & r & e & w & Hrun & _).
    eexists 0, _, _. split; [exact Hrun |].
    split; [split; [lia | discriminate] |].
    split; [reflexivity | discriminate].
  - eexists (-1), None, _. split; [apply uio_close_null |].
    split; [split; reflexivity |].
    split; [intros Hne; contradiction |]. intros _.
    destruct (rejected_spec "uio_close" s) as (Htr & Herr & _).
    split; assumption.
Qed.

Lemma irqwait_performs_io inf timeout (s : state W) :
  i_fd inf <> -1 ->
  timeout = None \/ 0 <= i_fd inf < FD_SETSIZE ->
  exists v s' c r evs,
    uio_irqwait_timeout (Some inf) timeout s = Val (v, s') /\
    trace s' = trace s ++ EvCall c r :: evs /\
    c = match timeout with
        | Some tv => Select (i_fd inf + 1) [i_fd inf] tv
        | None => Read (i_fd inf) 4
        end.
Proof.
  intros Hfd Hin. destruct timeout as [tv |].
  - destruct Hin as [| Hin]; [discriminate |].
    destruct (sys_call (Select (i_fd inf + 1) [i_fd inf] tv) (world s))
      as [[r e] w] eqn:Hc.
    rewrite (irqwait_timed _ _ _ _ _ _ Hin Hc). cbv zeta.
    destruct (r =? 0); [| destruct (r =? -1)].
    + eexists _, _, _, r, []. repeat split.
    + eexists _, _, _, r, []. repeat split.
    + set (s1 := called _ r e w s).
      destruct (sys_call (Read (i_fd inf) 4) (world s1))
        as [[n e'] w'] eqn:Hr.
      destruct (read_counter_outcome (i_fd inf) s1 n e' w' Hr)
        as (v & Hrun & _).
      eexists v, _, _, r, [_]. split; [exact Hrun |].
      split; [| reflexivity]. simpl. rewrite <- app_assoc. reflexivity.
  - destruct (sys_call (Read (i_fd inf) 4) (world s)) as [[n e] w] eqn:Hr.
    destruct (irqwait_no_timeout inf s Hfd n e w Hr) as (v & Hrun & _).
    eexists v, _, _, n, []. split; [exact Hrun |]. split; reflexivity.
Qed.

(** Past the guard on the file handle, no outcome of the wait is the
    [EINVAL] rejection. *)
Lemma irqwait_not_rejected inf timeout (s : state W) v s' :
  i_fd inf <> -1 ->
  uio_irqwait_timeout (Some inf) timeout s = Val (v, s') ->
  trace s' <> trace s ++ [EvPerror "uio_irqwait_timeout" EINVAL].
Proof.
  intros Hfd Hrun.
  assert (Hin : timeout = None \/ 0 <= i_fd inf < FD_SETSIZE).
  { destruct timeout as [tv |]; [| left; reflexivity].
    destruct (Z.lt_ge_cases (i_fd inf) 0) as [Hneg | Hpos];
      [| destruct (Z.lt_ge_cases (i_fd inf) FD_SETSIZE) as [Hlt | Hge]].
    - rewrite (irqwait_timed_overrun inf tv s Hfd (or_introl Hneg)) in Hrun.
      discriminate.
    - right. lia.
    - rewrite (irqwait_timed_overrun inf tv s Hfd (or_intror Hge)) in Hrun.
      discriminate. }
  destruct (irqwait_performs_io inf timeout s Hfd Hin)
    as (v0 & s0 & c & r & evs & Hrun0 & Htr & _).
  rewrite Hrun in Hrun0. injection Hrun0 as -> ->.
  rewrite Htr. intros Heq. apply app_inv_head in Heq. discriminate.
Qed.

(** C10: [uio_close] on a descriptor writes the [map] field of each map
    and nothing else: the file handle is as before (it is not set to
    -1), as are name, version, device node, device number, map count and
    each map's size, offset and address.  Hence, when the handle was not
    -1, the interrupt functions called on the closed descriptor are not
    turned away with [EINVAL]: enabling and disabling go on to their
    [write] on the stale handle, an untimed wait to its [read], a timed
    wait on a handle that fits an [fd_set] to its [select]; and no
    outcome of a wait, timed or not, is the [EINVAL] rejection. *)
Theorem uio_close_frame inf (s : state W) :
  wf_info inf ->
  exists inf' s',
    uio_close (Some inf) s = Val ((0, Some inf'), s') /\
    i_fd inf' = i_fd inf /\
    i_name inf' = i_name inf /\ i_version inf' = i_version inf /\
    i_devname inf' = i_devname inf /\ i_devid inf' = i_devid inf /\
    i_maxmap inf' = i_maxmap inf /\
    (m_size <$> i_maps inf') = (m_size <$> i_maps inf) /\
    (m_offset <$> i_maps inf') = (m_offset <$> i_maps inf) /\
    (m_addr <$> i_maps inf') = (m_addr <$> i_maps inf) /\
    (i_fd inf <> -1 ->
       (exists v n s'',
          uio_enable_irq (Some inf') s' = Val (v, s'') /\
          trace s'' = trace s' ++ [EvCall (Write (i_fd inf) [1; 0; 0; 0]) n]) /\
       (exists v n s'',
          uio_disable_irq (Some inf') s' = Val (v, s'') /\
          trace s'' = trace s' ++ [EvCall (Write (i_fd inf) [0; 0; 0; 0]) n]) /\
       (forall timeout,
          timeout = None \/ 0 <= i_fd inf < FD_SETSIZE ->
          exists v s'' c r evs,
            uio_irqwait_timeout (Some inf') timeout s' = Val (v, s'') /\
            trace s'' = trace s' ++ EvCall c r :: evs /\
            c = match timeout with
                | Some tv => Select (i_fd inf + 1) [i_fd inf] tv
                | None => Read (i_fd inf) 4
                end) /\
       (forall timeout v s'',
          uio_irqwait_timeout (Some inf') timeout s' = Val (v, s'') ->
          trace s'' <>
            trace s' ++ [EvPerror "uio_irqwait_timeout" EINVAL])).
Proof.
  intros Hwf.
  destruct (uio_close_run inf s Hwf)
    as (rs & s1 & r & e & w & Hrun & _).
  set (inf' := set_i_maps (set_m_map MAP_FAILED <$> i_maps inf) inf) in *.
  eexists inf', _. split; [exact Hrun |].
  do 6 (split; [reflexivity |]).
  split; [| split; [| split]];
    try (simpl; rewrite <- list_fmap_compose; reflexivity).
  intros Hfd. set (s' := called (Close (i_fd inf)) r e w s1).
  assert (Hfd' : i_fd inf' <> -1) by exact Hfd.
  split; [| split; [| split]].
  - destruct (sys_call (Write (i_fd inf') [1; 0; 0; 0]) (world s'))
      as [[n e'] w'] eqn:Hc.
    rewrite (enable_irq_open _ _ _ _ _ Hfd' Hc).
    eexists _, n, _. split; reflexivity.
  - destruct (sys_call (Write (i_fd inf') [0; 0; 0; 0]) (world s'))
      as [[n e'] w'] eqn:Hc.
    rewrite (disable_irq_open _ _ _ _ _ Hfd' Hc).
    eexists _, n, _. split; reflexivity.
  - intros timeout Hin. exact (irqwait_performs_io inf' timeout s' Hfd' Hin).
  - intros timeout v s'' Hwait.
    exact (irqwait_not_rejected inf' timeout s' v s'' Hfd' Hwait).
Qed.

End Closing.

(** Closing the opened two-map descriptor twice. *)
Lemma uio_close_twice_witness :
  wf_info demo_open /\
  exists inf1 s1 inf2 s2,
    uio_close (Some demo_open) (sim_state sim_world) = Val ((0, Some inf1), s1) /\
    uio_close (Some inf1) s1 = Val ((0, Some inf2), s2) /\
    Forall (fun m => m_map m = MAP_FAILED) (i_maps inf1) /\
    Forall (fun m => m_map m = MAP_FAILED) (i_maps inf2) /\
    exists r2, trace s2 = trace s1 ++ [EvCall (Close (i_fd demo_open)) r2].
Proof.
  assert (Hwf : wf_info demo_open) by reflexivity.
  split; [exact Hwf |].
  destruct (uio_close_twice demo_open (sim_state sim_world) Hwf)
    as (inf1 & s1 & inf2 & s2 & rs & r1 & r2 & H1 & H2 & _ & F1 & _ & F2 & _ & _ & T2).
  exists inf1, s1, inf2, s2.
  split; [exact H1 |]. split; [exact H2 |]. split; [exact F1 |].
  split; [exact F2 |]. exists r2. exact T2.
Defined.

(** In a world where every [munmap] fails, closing still returns 0. *)
Lemma uio_close_result_witness :
  (forall inf, Some demo_open = Some inf -> wf_info inf) /\
  exists info' s',
    uio_close (Some demo_open) (sim_state sim_world_stuck) =
      Val ((0, info'), s').
Proof.
  assert (Hwf : forall inf, Some demo_open = Some inf -> wf_info inf).
  { intros inf Heq. injection Heq as <-. reflexivity. }
  split; [exact Hwf |].
  destruct (uio_close_result (Some demo_open) (sim_state sim_world_stuck) Hwf)
    as (v & info' & s' & Hrun & _ & Hv & _).
  exists info', s'. rewrite Hrun, Hv; [reflexivity | discriminate].
Defined.

Lemma uio_close_frame_witness :
  wf_info demo_open /\
  exists inf' s',
    uio_close (Some demo_open) (sim_state sim_world) = Val ((0, Some inf'), s') /\
    i_fd inf' = 3 /\
    exists v n s'',
      uio_enable_irq (Some inf') s' = Val (v, s'') /\
      trace s'' = trace s' ++ [EvCall (Write 3 [1; 0; 0; 0]) n].
Proof.
  assert (Hwf : wf_info demo_open) by reflexivity.
  split; [exact Hwf |].
  destruct (uio_close_frame demo_open (sim_state sim_world) Hwf)
    as (inf' & s' & Hrun & Hfd & _ & _ & _ & _ & _ & _ & _ & _ & Hirq).
  exists inf', s'. split; [exact Hrun |]. split; [exact Hfd |].
  destruct Hirq as [Hen _]; [simpl; lia |]. exact Hen.
Defined.

(** ** Open followed by close *)

Lemma reset_mapped_slots (ms : list uio_map_t) : forall rs : list Z,
  Forall (fun m => m_map m = MAP_FAILED) ms ->
  length rs = length ms ->
  set_m_map MAP_FAILED <$> zip_with set_m_map rs ms = ms.
Proof.
  induction ms as [| m ms IH]; intros [| r rs] Hall Hlen; try discriminate.
  - reflexivity.
  - inversion Hall as [| ? ? Hm Hms]; subst. simpl. f_equal.
    + destruct m as [a sz o p]. simpl in Hm. subst p. reflexivity.
    + apply IH; [assumption |]. simpl in Hlen. lia.
Qed.

Section RoundTrip.
Context {W : Type} {E : Env W}.

(** On a descriptor that was never opened (every pointer at the
    sentinel), a successful [uio_open] followed by [uio_close] gives
    back the descriptor with one difference: the file handle is the one
    [open] returned, not -1. *)
Lemma open_close_unopened inf (s : state W) fd e w :
  wf_info inf ->
  Forall (fun m => m_map m = MAP_FAILED) (i_maps inf) ->
  sys_call (Open (i_devname inf) O_RDWR) (world s) = (fd, e, w) ->
  0 <= fd ->
  exists s', open_close (Some inf) s = Val ((0, Some (set_i_fd fd inf)), s').
Proof.
  intros Hwf Hall Hc Hfd.
  destruct (uio_open_mapped _ _ _ _ _ Hwf Hc Hfd)
    as (rs & s1 & Hrun1 & Hlen & _).
  set (inf1 := set_i_fd fd
                 (set_i_maps (zip_with set_m_map rs (i_maps inf)) inf)) in *.
  assert (Hwf1 : wf_info inf1).
  { unfold wf_info, inf1. simpl. rewrite length_zip_with.
    rewrite Hlen, Nat.min_id. exact Hwf. }
  destruct (uio_close_run inf1 s1 Hwf1)
    as (rs' & s2 & r & e' & w' & Hrun2 & _).
  eexists. unfold open_close, bind. rewrite Hrun1, Hrun2.
  unfold inf1. simpl i_maps. rewrite (reset_mapped_slots _ _ Hall Hlen).
  destruct inf. reflexivity.
Qed.

End RoundTrip.

(** C2: the round trip does not bring the file handle back to -1.  The
    descriptor [demo_info] has never been opened (file handle -1, pointers
    at the sentinel); [uio_open] obtains handle 3 and [uio_close] closes
    it, and the descriptor is left with file handle 3.  Everything else is
    as before the open. *)
Theorem open_close_leaves_file_handle :
  i_fd demo_info = -1 /\
  exists inf' s',
    open_close (Some demo_info) (sim_state sim_world) =
      Val ((0, Some inf'), s') /\
    inf' = set_i_fd 3 demo_info /\
    i_fd inf' = 3 /\
    i_fd inf' <> -1 /\
    trace s' =
      [ EvCall (Open (Some "/dev/uio0"%string) O_RDWR) 3;
        EvCall (Mmap NULL 4096 3 MAP_SHARED 3 0) 0x7f0000000000;
        EvCall (Mmap NULL 0 3 MAP_SHARED 3 1) MAP_FAILED;
        EvCall (Munmap 0x7f0000000000 4096) 0;
        EvCall (Close 3) 0 ].
Proof.
  split; [reflexivity |].
  eexists. eexists. split; [vm_compute; reflexivity |].
  split; [reflexivity |]. split; [reflexivity |].
  split; [discriminate | reflexivity].
Qed.

(** ** Discovery *)

(** The order of [alphasort] is total and transitive, so sorting with it
    gives a list in which every name is below all the names after it. *)
Lemma ascii_compare_N a b :
  Ascii.compare a b = N.compare (N_of_ascii a) (N_of_ascii b).
Proof. reflexivity. Qed.

Lemma alpha_le_trans a : forall b c, alpha_le a b -> alpha_le b c -> alpha_le a c.
Proof.
  unfold alpha_le, alphasort.
  induction a as [| x a IH]; intros [| y b] [| z c]; simpl; try congruence.
  rewrite !ascii_compare_N.
  destruct (N.compare_spec (N_of_ascii x) (N_of_ascii y)) as [Hxy | Hxy | Hxy];
    destruct (N.compare_spec (N_of_ascii y) (N_of_ascii z)) as [Hyz | Hyz | Hyz];
    destruct (N.compare_spec (N_of_ascii x) (N_of_ascii z)) as [Hxz | Hxz | Hxz];
    try congruence; try lia.
  apply IH.
Qed.

Lemma alpha_le_total a b : alpha_le a b \/ alpha_le b a.
Proof.
  unfold alpha_le, alphasort. rewrite (String.compare_antisym a b).
  destruct (String.compare b a); simpl; [left | right | left]; congruence.
Qed.

#[global] Instance alpha_le_transitive : Transitive alpha_le.
Proof. intros a b c. apply alpha_le_trans. Qed.

#[global] Instance alpha_le_is_total : Total alpha_le.
Proof. intros a b. apply alpha_le_total. Qed.

Lemma StronglySorted_filter {A} (R : relation A) (f : A -> bool) l :
  StronglySorted R l -> StronglySorted R (List.filter f l).
Proof.
  induction 1 as [| x l Hl IH Hx]; simpl; [constructor |].
  destruct (f x); [| exact IH]. constructor; [exact IH |].
  apply Forall_forall. intros y Hy. apply list_elem_of_In, filter_In in Hy.
  rewrite Forall_forall in Hx. apply Hx, list_elem_of_In, Hy.
Qed.

Lemma filter_Permutation {A} (f : A -> bool) (l1 l2 : list A) :
  l1 ≡ₚ l2 -> List.filter f l1 ≡ₚ List.filter f l2.
Proof.
  induction 1 as [| x l1 l2 _ IH | x y l | l1 l2 l3 _ IH1 _ IH2]; simpl.
  - reflexivity.
  - destruct (f x); [constructor |]; exact IH.
  - destruct (f x), (f y); try reflexivity. constructor.
  - etransitivity; eassumption.
Qed.

Lemma filter_length_le {A} (f : A -> bool) (l : list A) :
  (length (List.filter f l) <= length l)%nat.
Proof. induction l as [| x l IH]; simpl; [lia |]. destruct (f x); simpl; lia. Qed.

Section Discovery.
Context {W : Type} {E : Env W}.

Lemma factory_eq dir d_name r e w (s : state W) :
  create_uio_info dir d_name (world s) = (r, e, w) ->
  factory dir d_name s =
    Val (r, mkState w (default (errno s) e) (sysfs s)
              (trace s ++ [EvFactory dir d_name r])).
Proof. intros Hc. unfold factory. rewrite Hc. reflexivity. Qed.

Lemma find_body_step dir pre d suf done k (s : state W) :
  find_devices_body dir (pre ++ d :: suf) (Z.of_nat (length pre))
    (Z.of_nat (length done), done ++ replicate k None) s =
  if is_dot d then Val ((Z.of_nat (length done), done ++ replicate k None), s)
  else
    let '(r, e, w) := create_uio_info dir d (world s) in
    match k with
    | O => Fault
    | S k' =>
        Val ((Z.of_nat (length (done ++ [r])),
              (done ++ [r]) ++ replicate k' None),
             mkState w (default (errno s) e) (sysfs s)
               (trace s ++ [EvFactory dir d r]))
    end.
Proof.
  unfold find_devices_body, bind. rewrite array_get_middle.
  unfold lift at 1. cbv beta iota.
  destruct (is_dot d); [reflexivity |].
  destruct (create_uio_info dir d (world s)) as [[r e] w] eqn:Hc.
  rewrite (factory_eq _ _ _ _ _ _ Hc). destruct k as [| k'].
  - simpl replicate. rewrite app_nil_r. unfold array_set.
    destruct (Z.ltb_spec (Z.of_nat (length done)) 0); [reflexivity |].
    rewrite Nat2Z.id, Nat.ltb_irrefl. reflexivity.
  - change (replicate (S k') None) with
      (@None uio_info_t :: replicate k' None).
    rewrite array_set_middle. unfold lift, ret.
    rewrite length_app, <- app_assoc. simpl.
    do 3 f_equal. lia.
Qed.

(** The discovery loop from entry [length pre] on, with [done] the
    results stored so far and [k] null slots left: the factory is called
    on the entries that are not pseudo-entries, in order, and each
    result takes the next free slot. *)
Lemma find_loop dir namelist suf : forall pre done k (s : state W),
  namelist = pre ++ suf ->
  (length (List.filter not_dot suf) <= k)%nat ->
  exists rs s',
    for_loop (length suf) (Z.of_nat (length pre))
      (find_devices_body dir namelist)
      (Z.of_nat (length done), done ++ replicate k None) s =
      Val ((Z.of_nat (length (done ++ rs)),
            (done ++ rs) ++ replicate (k - length rs) None), s') /\
    length rs = length (List.filter not_dot suf) /\
    trace s' =
      trace s ++ zip_with (EvFactory dir) (List.filter not_dot suf) rs /\
    sysfs s' = sysfs s.
Proof.
  induction suf as [| d suf IH]; intros pre done k s Hnl Hk.
  - exists [], s. simpl. rewrite !app_nil_r, Nat.sub_0_r. repeat split.
  - change (length (d :: suf)) with (S (length suf)).
    assert (Hpre : Z.of_nat (length pre) + 1 = Z.of_nat (length (pre ++ [d]))).
    { rewrite length_app. simpl. lia. }
    assert (Hnl' : namelist = (pre ++ [d]) ++ suf).
    { rewrite Hnl, <- app_assoc. reflexivity. }
    assert (Hstep := find_body_step dir pre d suf done k s).
    rewrite <- Hnl in Hstep.
    rewrite for_loop_S, Hstep, Hpre. clear Hstep.
    simpl List.filter in *.
    change (not_dot d) with (negb (is_dot d)) in *.
    destruct (is_dot d); simpl negb in *; cbv iota in *.
    + exact (IH (pre ++ [d]) done k s Hnl' Hk).
    + simpl in Hk. destruct k as [| k]; [lia |].
      destruct (create_uio_info dir d (world s)) as [[r e] w].
      set (s1 := mkState w _ _ _).
      destruct (IH (pre ++ [d]) (done ++ [r]) k s1 Hnl')
        as (rs & s' & Hrun & Hlen & Htr & Hfs); [lia |].
      exists (r :: rs), s'. rewrite Hrun.
      rewrite <- !app_assoc. simpl.
      split; [reflexivity |]. split; [rewrite Hlen; reflexivity |].
      split; [| rewrite Hfs; reflexivity].
      rewrite Htr. unfold s1. simpl. rewrite <- app_assoc. reflexivity.
Qed.

End Discovery.

Section DiscoveryResult.
Context {W : Type} {E : Env W}.

Lemma uio_find_devices_no_listing (s : state W) e w :
  sys_readdir (sysfsname_of (sysfs s)) (world s) = (None, e, w) ->
  uio_find_devices s =
    Val (None,
         diagnosed "scandir"
           (mkState w (default (errno s) e) (sysfs s)
              (trace s ++ [EvReaddir (sysfsname_of (sysfs s)) None]))).
Proof.
  intros Hdir. unfold uio_find_devices, bind, get_sysfs, scandir.
  rewrite Hdir. reflexivity.
Qed.

Lemma uio_find_devices_listing (s : state W) l e w :
  sys_readdir (sysfsname_of (sysfs s)) (world s) = (Some l, e, w) ->
  uio_find_devices s =
    let dir := sysfsname_of (sysfs s) in
    let nr := Z.of_nat (length l) in
    let s0 := mkState w (default (errno s) e) (sysfs s)
                (trace s ++ [EvReaddir dir (Some l)]) in
    match syscall (Calloc nr sizeof_ptr) s0 with
    | Val (p, s1) =>
        if p =? NULL then
          Val (None, diagnosed "calloc"
                       (mkState (world s1) ENOMEM (sysfs s1) (trace s1)))
        else
          match for_loop (length l) 0
                  (find_devices_body dir (merge_sort alpha_le l))
                  (0, replicate (length l) None) s1 with
          | Val ((_, info), s2) => Val (Some info, s2)
          | Fault => Fault
          end
    | Fault => Fault
    end.
Proof.
  intros Hdir. unfold uio_find_devices, bind, get_sysfs, scandir.
  rewrite Hdir. cbv zeta.
  destruct (Z.ltb_spec (Z.of_nat (length l)) 0); [lia |].
  unfold log, answer. cbn [world errno sysfs trace].
  destruct (syscall _ _) as [[p s1] |]; [| reflexivity].
  destruct (p =? NULL); [reflexivity |].
  unfold for_range. rewrite Nat2Z.id.
  destruct (for_loop _ _ _ _ _) as [[[t info] s2] |]; reflexivity.
Qed.

(** C8, as the code has it: [uio_find_devices] returns the null pointer
    when the listing of the [class/uio] directory cannot be obtained,
    and also when the result array cannot be allocated; in the second
    case it assigns [errno = ENOMEM] and prints the diagnostic for it,
    and the factory is not called.  Otherwise it
    skips "." and "..", calls the factory once for each remaining entry,
    in the byte-wise lexicographic order of the names, and stores the
    results in that order from slot 0 on.  The array has one slot per
    directory entry, pseudo-entries included; the number of stored
    results is the number of entries other than "." and "..", and the
    slots after them are null. *)
Theorem uio_find_devices_spec (s : state W) dir_r e w :
  sys_readdir (sysfsname_of (sysfs s)) (world s) = (dir_r, e, w) ->
  (dir_r = None ->
     exists s',
       uio_find_devices s = Val (None, s') /\
       trace s' = trace s ++ [EvReaddir (sysfsname_of (sysfs s)) None;
                              EvPerror "scandir" (default (errno s) e)]) /\
  (forall l, dir_r = Some l ->
     let dir := sysfsname_of (sysfs s) in
     let nr := Z.of_nat (length l) in
     let names := List.filter not_dot (merge_sort alpha_le l) in
     StronglySorted alpha_le names /\
     names ≡ₚ List.filter not_dot l /\
     forall p e' w',
       sys_call (Calloc nr sizeof_ptr) w = (p, e', w') ->
       (p = NULL ->
          exists s',
            uio_find_devices s = Val (None, s') /\
            trace s' = trace s ++ [EvReaddir dir (Some l);
                                   EvCall (Calloc nr sizeof_ptr) p;
                                   EvPerror "calloc" ENOMEM]) /\
       (p <> NULL ->
          exists rs s',
            uio_find_devices s =
              Val (Some (rs ++ replicate (length l - length names) None),
                   s') /\
            length rs = length names /\
            trace s' = trace s ++ EvReaddir dir (Some l) ::
                         EvCall (Calloc nr sizeof_ptr) p ::
                         zip_with (EvFactory dir) names rs)).
Proof.
  intros Hdir. split.
  - intros ->. eexists. rewrite (uio_find_devices_no_listing _ _ _ Hdir).
    split; [reflexivity |].
    destruct (diagnosed_spec "scandir"
                (mkState w (default (errno s) e) (sysfs s)
                   (trace s ++ [EvReaddir (sysfsname_of (sysfs s)) None])))
      as (Htr & _).
    rewrite Htr. simpl. rewrite <- app_assoc. reflexivity.
  - intros l -> dir nr names.
    split; [apply StronglySorted_filter, StronglySorted_merge_sort; apply _ |].
    split; [apply filter_Permutation, merge_sort_Permutation |].
    intros p e' w' Hc.
    pose proof (uio_find_devices_listing _ _ _ _ Hdir) as Hrun.
    cbv zeta in Hrun. fold dir nr in Hrun.
    set (s0 := mkState w _ _ _) in Hrun.
    rewrite (syscall_eq _ _ _ _ s0 Hc) in Hrun.
    split; intros Hp.
    + subst p. eexists. rewrite Hrun. simpl.
      split; [reflexivity |].
      match goal with
      | |- context [diagnosed "calloc" ?t] =>
          destruct (diagnosed_spec "calloc" t) as (Htr & _)
      end.
      rewrite Htr. simpl. rewrite <- !app_assoc. reflexivity.
    + rewrite (proj2 (Z.eqb_neq p NULL) Hp) in Hrun.
      assert (Hlen : length (merge_sort alpha_le l) = length l).
      { apply Permutation_length, merge_sort_Permutation. }
      destruct (find_loop dir (merge_sort alpha_le l) (merge_sort alpha_le l)
                  [] [] (length l) (called (Calloc nr sizeof_ptr) p e' w' s0)
                  eq_refl)
        as (rs & s' & Hloop & Hrs & Htr & _).
      { rewrite <- Hlen. apply filter_length_le. }
      rewrite Hlen in Hloop.
      change (Z.of_nat (length (@nil string))) with 0 in Hloop.
      change (Z.of_nat (length (@nil (option uio_info_t)))) with 0 in Hloop.
      simpl app in Hloop. rewrite Hloop in Hrun.
      exists rs, s'. rewrite Hrun. fold names in Hrs, Htr. rewrite Hrs.
      split; [reflexivity |]. split; [reflexivity |].
      rewrite Htr. simpl. rewrite <- !app_assoc. reflexivity.
Qed.

End DiscoveryResult.

(** Five entries are listed, three of them devices: the factory is called
    on [uio0], [uio1], [uio2], and two slots stay null. *)
Lemma uio_find_devices_spec_witness :
  sys_readdir (sysfsname_of (sysfs (sim_state sim_world)))
    (world (sim_state sim_world)) =
    (Some ["uio0"; ".."; "uio2"; "."; "uio1"]%string, None, sim_world) /\
  exists rs s',
    uio_find_devices (sim_state sim_world) =
      Val (Some (rs ++ replicate 2 None), s') /\
    length rs = 3%nat /\
    trace s' =
      [] ++ EvReaddir "/sys/class/uio" (Some ["uio0"; ".."; "uio2"; "."; "uio1"]%string) ::
      EvCall (Calloc 5 sizeof_ptr) 0x55550000 ::
      zip_with (EvFactory "/sys/class/uio") ["uio0"; "uio1"; "uio2"]%string rs.
Proof.
  assert (Hdir : sys_readdir (sysfsname_of (sysfs (sim_state sim_world)))
                   (world (sim_state sim_world)) =
                 (Some ["uio0"; ".."; "uio2"; "."; "uio1"]%string, None,
                  sim_world)) by reflexivity.
  split; [exact Hdir |].
  destruct (uio_find_devices_spec (sim_state sim_world) _ _ _ Hdir)
    as [_ Hsome].
  destruct (Hsome _ eq_refl) as (_ & _ & Halloc).
  destruct (Halloc 0x55550000 None sim_world eq_refl) as [_ Hok].
  apply Hok. discriminate.
Defined.

(** C8 fails as stated.  With the listing obtained and [calloc] returning
    the null pointer, [uio_find_devices] returns the null pointer and the
    factory is never called.  And in the world with memory, five entries
    of which three are devices give an array of five slots, the last two
    null. *)
Lemma uio_find_devices_null_with_listing :
  sys_readdir "/sys/class/uio" sim_world_nomem =
    (Some ["uio0"; ".."; "uio2"; "."; "uio1"]%string, None, sim_world_nomem) /\
  (exists s',
     uio_find_devices (sim_state sim_world_nomem) = Val (None, s') /\
     trace s' =
       [ EvReaddir "/sys/class/uio"
           (Some ["uio0"; ".."; "uio2"; "."; "uio1"]%string);
         EvCall (Calloc 5 sizeof_ptr) NULL;
         EvPerror "calloc" ENOMEM ]) /\
  (exists info s',
     uio_find_devices (sim_state sim_world) = Val (Some info, s') /\
     info = [ Some (sim_info "/dev/uio0"); Some (sim_info "/dev/uio1");
              Some (sim_info "/dev/uio2"); None; None ] /\
     length info = 5%nat /\
     length (List.filter not_dot ["uio0"; ".."; "uio2"; "."; "uio1"]%string)
       = 3%nat).
Proof.
  split; [reflexivity |]. split.
  - eexists. split; [vm_compute; reflexivity | reflexivity].
  - eexists. eexists. split; [vm_compute; reflexivity |].
    repeat split.
Qed.

(** The descriptor that was never opened is turned away; on the opened
    one the four bytes go to handle 3 and are accepted. *)
Lemma uio_irq_toggle_spec_witness :
  not_open (Some demo_info) /\
  (exists s1 s0,
     uio_enable_irq (Some demo_info) (sim_state sim_world) = Val (-1, s1) /\
     uio_disable_irq (Some demo_info) (sim_state sim_world) = Val (-1, s0) /\
     errno s1 = EINVAL /\ errno s0 = EINVAL /\
     trace s1 = [EvPerror "uio_enable_irq" EINVAL] /\
     trace s0 = [EvPerror "uio_disable_irq" EINVAL]) /\
  i_fd demo_open <> -1 /\
  (exists buf1 s',
     uio_enable_irq (Some demo_open) (sim_state sim_world) = Val (0, s') /\
     le_value buf1 = 1 /\
     trace s' = [EvCall (Write 3 buf1) 4]).
Proof.
  assert (Hno : not_open (Some demo_info)) by reflexivity.
  assert (Hfd : i_fd demo_open <> -1) by (simpl; lia).
  split; [exact Hno |]. split; [| split; [exact Hfd |]].
  - destruct (uio_irq_toggle_spec (Some demo_info) (sim_state sim_world))
      as [Hrej _].
    destruct (Hrej Hno)
      as (s1 & s0 & H1 & H0 & T1 & T0 & E1 & E0 & _ & _).
    exists s1, s0. split; [exact H1 |]. split; [exact H0 |].
    split; [exact E1 |]. split; [exact E0 |].
    split; [exact T1 | exact T0].
  - destruct (uio_irq_toggle_spec (Some demo_open) (sim_state sim_world))
      as [_ Hio].
    destruct (Hio demo_open eq_refl Hfd)
      as (buf1 & buf0 & _ & V1 & _ & _ & Hen & _).
    destruct (Hen 4 None sim_world eq_refl) as (v & Hrun & Hv & _).
    exists buf1. eexists. rewrite Hrun.
    rewrite (proj2 Hv eq_refl). split; [reflexivity |].
    split; [exact V1 | reflexivity].
Defined.

(** * Further properties *)

(** ** The accessors on a descriptor *)

Lemma wf_lookup inf map :
  wf_info inf -> 0 <= map < i_maxmap inf ->
  exists m, i_maps inf !! Z.to_nat map = Some m /\
            array_get (i_maps inf) map = Val m.
Proof.
  intros Hwf Hmap.
  destruct (lookup_lt_is_Some_2 (i_maps inf) (Z.to_nat map)) as [m Hm].
  { unfold wf_info in Hwf. lia. }
  exists m. split; [exact Hm |]. unfold array_get.
  destruct (Z.ltb_spec map 0); [lia |]. rewrite Hm. reflexivity.
Qed.

(** X1: on a descriptor whose [maps] array has [maxmap] elements, the four
    per-map accessors read outside the array exactly for the negative
    indices.  For an index in [0, maxmap) each returns the field of that
    map ([uio_get_mem_map] turning [MAP_FAILED] into the null pointer). *)
Theorem accessors_fault_iff_negative inf map :
  wf_info inf ->
  (uio_get_mem_size (Some inf) map = Fault <-> map < 0) /\
  (uio_get_offset (Some inf) map = Fault <-> map < 0) /\
  (uio_get_mem_addr (Some inf) map = Fault <-> map < 0) /\
  (uio_get_mem_map (Some inf) map = Fault <-> map < 0) /\
  (forall m, 0 <= map -> i_maps inf !! Z.to_nat map = Some m ->
     uio_get_mem_size (Some inf) map = Val (m_size m) /\
     uio_get_offset (Some inf) map = Val (m_offset m) /\
     uio_get_mem_addr (Some inf) map = Val (m_addr m) /\
     uio_get_mem_map (Some inf) map =
       Val (if m_map m =? MAP_FAILED then NULL else m_map m)).
Proof.
  intros Hwf.
  assert (Hmax : 0 <= i_maxmap inf) by (unfold wf_info in Hwf; lia).
  unfold uio_get_mem_size, uio_get_offset, uio_get_mem_addr, uio_get_mem_map.
  destruct (Z.geb_spec map (i_maxmap inf)) as [Hge | Hlt].
  - repeat (split; [split; [discriminate | lia] |]).
    intros m Hpos Hm. apply lookup_lt_Some in Hm.
    unfold wf_info in Hwf. lia.
  - destruct (Z.ltb_spec map 0) as [Hneg | Hpos].
    + rewrite array_get_negative by assumption. simpl.
      repeat (split; [split; [intros _; assumption | reflexivity] |]).
      intros m Hpos. lia.
    + destruct (wf_lookup inf map Hwf) as (m & Hm & Hget); [lia |].
      rewrite Hget. simpl.
      split; [split; [discriminate | lia] |].
      split; [split; [discriminate | lia] |].
      split; [split; [discriminate | lia] |].
      split.
      * split; [| lia]. destruct (m_map m =? MAP_FAILED); discriminate.
      * intros m' _ Hm'. rewrite Hm in Hm'. injection Hm' as <-.
        repeat split. destruct (m_map m =? MAP_FAILED); reflexivity.
Qed.

Lemma accessors_fault_iff_negative_witness :
  wf_info demo_open /\
  uio_get_mem_size (Some demo_open) 0 = Val 4096 /\
  uio_get_mem_map (Some demo_open) 0 = Val 0x7f0000000000 /\
  uio_get_mem_map (Some demo_open) 1 = Val NULL.
Proof.
  assert (Hwf : wf_info demo_open) by reflexivity.
  split; [exact Hwf |].
  destruct (accessors_fault_iff_negative demo_open 0 Hwf)
    as (_ & _ & _ & _ & H0).
  destruct (accessors_fault_iff_negative demo_open 1 Hwf)
    as (_ & _ & _ & _ & H1).
  destruct (H0 _ ltac:(lia) eq_refl) as (Hs & _ & _ & Hm0).
  destruct (H1 _ ltac:(lia) eq_refl) as (_ & _ & _ & Hm1).
  split; [exact Hs |]. split; [exact Hm0 | exact Hm1].
Defined.

(** X2: [uio_get_mem_map] never hands [MAP_FAILED] to its caller: whatever
    the descriptor and the index, a returned pointer is the null pointer
    or a pointer other than [MAP_FAILED]. *)
Theorem uio_get_mem_map_never_map_failed info map v :
  uio_get_mem_map info map = Val v -> v <> MAP_FAILED.
Proof.
  unfold uio_get_mem_map. destruct info as [inf |].
  - destruct (map >=? i_maxmap inf).
    + intros [= <-]. discriminate.
    + destruct (array_get (i_maps inf) map) as [m |]; simpl; [| discriminate].
      destruct (Z.eqb_spec (m_map m) MAP_FAILED) as [| Hne].
      * intros [= <-]. discriminate.
      * intros [= <-]. exact Hne.
  - intros [= <-]. discriminate.
Qed.

Lemma uio_get_mem_map_never_map_failed_witness :
  uio_get_mem_map (Some demo_info) 0 = Val NULL /\ NULL <> MAP_FAILED.
Proof.
  assert (H : uio_get_mem_map (Some demo_info) 0 = Val NULL) by reflexivity.
  split; [exact H |].
  exact (uio_get_mem_map_never_map_failed (Some demo_info) 0 NULL H).
Defined.

(** ** The directory that discovery scans *)

Lemma substring_0_length n : forall s,
  String.length (substring 0 n s) = Nat.min n (String.length s).
Proof.
  induction n as [| n IH]; intros [| c s]; simpl; try reflexivity.
  rewrite IH. reflexivity.
Qed.

Lemma substring_0_prefix n : forall s,
  exists rest, s = (substring 0 n s ++ rest)%string.
Proof.
  induction n as [| n IH]; intros [| c s]; simpl.
  - exists ""%string. reflexivity.
  - exists (String c s). reflexivity.
  - exists ""%string. reflexivity.
  - destruct (IH s) as [rest Hrest]. exists rest.
    change (String c s = String c (substring 0 n s ++ rest)%string).
    f_equal. exact Hrest.
Qed.

Lemma substring_0_all n : forall s,
  (String.length s <= n)%nat -> substring 0 n s = s.
Proof.
  induction n as [| n IH]; intros [| c s] Hlen; simpl in *;
    try reflexivity; try lia.
  rewrite IH by lia. reflexivity.
Qed.

Lemma substring_0_app n : forall s t,
  (n <= String.length s)%nat ->
  substring 0 n (s ++ t) = substring 0 n s.
Proof.
  induction n as [| n IH]; intros [| c s] t Hlen; simpl in Hlen; try lia.
  - destruct t; reflexivity.
  - reflexivity.
  - change (substring 0 (S n) (String c s ++ t)%string)
      with (String c (substring 0 n (s ++ t)%string)).
    rewrite IH by lia. reflexivity.
Qed.

Lemma string_length_app (s t : string) :
  String.length (s ++ t) = (String.length s + String.length t)%nat.
Proof.
  induction s as [| c s IH]; [reflexivity |].
  change (String.length (String c s ++ t)%string)
    with (S (String.length (s ++ t)%string)).
  rewrite IH. reflexivity.
Qed.

(** X3: the directory name built from the mount point never exceeds
    [PATH_MAX - 1] characters and is always a prefix of
    [<mount point>/class/uio].  It is that whole path when the path fits;
    a mount point of [PATH_MAX - 1] characters or more loses the
    [/class/uio] part altogether, and discovery then scans a prefix of the
    mount point itself. *)
Theorem sysfsname_of_bounded (p : string) :
  (String.length (sysfsname_of p) <= PATH_MAX - 1)%nat /\
  (exists rest, (p ++ "/class/uio")%string = (sysfsname_of p ++ rest)%string) /\
  ((String.length p + 10 <= PATH_MAX - 1)%nat ->
     sysfsname_of p = (p ++ "/class/uio")%string) /\
  ((PATH_MAX - 1 <= String.length p)%nat ->
     sysfsname_of p = substring 0 (PATH_MAX - 1) p).
Proof.
  unfold sysfsname_of. generalize (PATH_MAX - 1)%nat. intros n.
  split; [rewrite substring_0_length; apply Nat.le_min_l |].
  split; [apply substring_0_prefix |].
  split.
  - intros Hfit. apply substring_0_all.
    rewrite string_length_app. exact Hfit.
  - intros Hlong. apply substring_0_app. exact Hlong.
Qed.

Section DiscoveryShape.
Context {W : Type} {E : Env W}.

Lemma discovers_factory_events dir (names : list string) :
  forall rs : list (option uio_info_t),
  Forall (fun ev => discovers dir ev = true)
         (zip_with (EvFactory dir) names rs).
Proof.
  induction names as [| d names IH]; intros [| r rs]; simpl;
    try constructor; [apply String.eqb_refl | apply IH].
Qed.

Lemma factory_names_events dir (names : list string) :
  forall rs : list (option uio_info_t),
  length rs = length names ->
  factory_names (zip_with (EvFactory dir) names rs) = names.
Proof.
  induction names as [| d names IH]; intros [| r rs] Hlen;
    try discriminate; [reflexivity |].
  simpl in Hlen. injection Hlen as Hlen.
  change (factory_names (zip_with (EvFactory dir) (d :: names) (r :: rs)))
    with (d :: factory_names (zip_with (EvFactory dir) names rs)).
  rewrite (IH rs Hlen). reflexivity.
Qed.

(** Discovery with the listing obtained and the array allocated. *)
Lemma uio_find_devices_filled (s : state W) l e w p e' w' :
  sys_readdir (sysfsname_of (sysfs s)) (world s) = (Some l, e, w) ->
  sys_call (Calloc (Z.of_nat (length l)) sizeof_ptr) w = (p, e', w') ->
  p <> NULL ->
  let dir := sysfsname_of (sysfs s) in
  let names := List.filter not_dot (merge_sort alpha_le l) in
  exists rs s',
    uio_find_devices s =
      Val (Some (rs ++ replicate (length l - length names) None), s') /\
    length rs = length names /\
    trace s' = trace s ++ EvReaddir dir (Some l) ::
                 EvCall (Calloc (Z.of_nat (length l)) sizeof_ptr) p ::
                 zip_with (EvFactory dir) names rs /\
    sysfs s' = sysfs s.
Proof.
  intros Hdir Hc Hp dir names.
  pose proof (uio_find_devices_listing _ _ _ _ Hdir) as Hrun.
  cbv zeta in Hrun. fold dir in Hrun.
  set (s0 := mkState w _ _ _) in Hrun.
  rewrite (syscall_eq _ _ _ _ s0 Hc) in Hrun.
  rewrite (proj2 (Z.eqb_neq p NULL) Hp) in Hrun.
  assert (Hlen : length (merge_sort alpha_le l) = length l).
  { apply Permutation_length, merge_sort_Permutation. }
  destruct (find_loop dir (merge_sort alpha_le l) (merge_sort alpha_le l)
              [] [] (length l)
              (called (Calloc (Z.of_nat (length l)) sizeof_ptr) p e' w' s0)
              eq_refl)
    as (rs & s' & Hloop & Hrs & Htr & Hfs).
  { rewrite <- Hlen. apply filter_length_le. }
  rewrite Hlen in Hloop.
  change (Z.of_nat (length (@nil string))) with 0 in Hloop.
  change (Z.of_nat (length (@nil (option uio_info_t)))) with 0 in Hloop.
  simpl app in Hloop. rewrite Hloop in Hrun.
  exists rs, s'. rewrite Hrun. fold names in Hrs, Htr. rewrite Hrs.
  split; [reflexivity |]. split; [reflexivity |]. split.
  - rewrite Htr. simpl. rewrite <- !app_assoc. reflexivity.
  - rewrite Hfs. reflexivity.
Qed.

(** Every run of discovery: it returns, the first thing it does is list
    the directory, and what follows is the allocation, factory calls for
    that directory and diagnostics. *)
Lemma uio_find_devices_shape (s : state W) :
  exists out s' r evs,
    uio_find_devices s = Val (out, s') /\
    trace s' = trace s ++ EvReaddir (sysfsname_of (sysfs s)) r :: evs /\
    sysfs s' = sysfs s /\
    Forall (fun ev => discovers (sysfsname_of (sysfs s)) ev = true) evs /\
    (out = None -> factory_names evs = []).
Proof.
  destruct (sys_readdir (sysfsname_of (sysfs s)) (world s))
    as [[[l |] e] w] eqn:Hdir.
  - destruct (sys_call (Calloc (Z.of_nat (length l)) sizeof_ptr) w)
      as [[p e'] w'] eqn:Hc.
    destruct (Z.eq_dec p NULL) as [-> | Hp].
    + pose proof (uio_find_devices_listing _ _ _ _ Hdir) as Hrun.
      cbv zeta in Hrun. set (s0 := mkState w _ _ _) in Hrun.
      rewrite (syscall_eq _ _ _ _ s0 Hc) in Hrun. simpl in Hrun.
      match type of Hrun with
      | context [diagnosed "calloc" ?t] =>
          destruct (diagnosed_spec "calloc" t) as (Htr & _ & _ & Hfs)
      end.
      eexists _, _, _, [_; _]. split; [exact Hrun |].
      split; [rewrite Htr; simpl; rewrite <- !app_assoc; reflexivity |].
      split; [rewrite Hfs; reflexivity |]. split; [| reflexivity].
      repeat constructor.
    + destruct (uio_find_devices_filled s l e w p e' w' Hdir Hc Hp)
        as (rs & s' & Hrun & Hrs & Htr & Hfs).
      eexists _, s', _, (_ :: _). split; [exact Hrun |].
      split; [exact Htr |]. split; [exact Hfs |].
      split; [| discriminate].
      constructor; [reflexivity | apply discovers_factory_events].
  - rewrite (uio_find_devices_no_listing _ _ _ Hdir).
    match goal with
    | |- context [diagnosed "scandir" ?t] =>
        destruct (diagnosed_spec "scandir" t) as (Htr & _ & _ & Hfs)
    end.
    eexists _, _, _, [_]. split; [reflexivity |].
    split; [rewrite Htr; simpl; rewrite <- app_assoc; reflexivity |].
    split; [rewrite Hfs; reflexivity |].
    split; [repeat constructor | reflexivity].
Qed.

(** X4: discovery scans the directory named after the mount point set
    last with [uio_setsysfs_point], and hands that same directory to the
    factory; a program that never sets the mount point scans
    [/sys/class/uio].  Setting the mount point reaches nothing outside. *)
Theorem uio_setsysfs_point_directs_discovery (p : string) (s : state W) :
  (exists s0 out s' r evs,
     uio_setsysfs_point p s = Val (tt, s0) /\
     world s0 = world s /\ trace s0 = trace s /\
     uio_find_devices s0 = Val (out, s') /\
     trace s' = trace s ++ EvReaddir (sysfsname_of p) r :: evs /\
     Forall (fun ev => discovers (sysfsname_of p) ev = true) evs) /\
  (forall w : W, exists out s' r evs,
     uio_find_devices (start_state w) = Val (out, s') /\
     trace s' = EvReaddir "/sys/class/uio" r :: evs /\
     Forall (fun ev => discovers "/sys/class/uio" ev = true) evs).
Proof.
  split.
  - set (s0 := mkState (world s) (errno s) p (trace s)).
    destruct (uio_find_devices_shape s0)
      as (out & s' & r & evs & Hrun & Htr & _ & Hev & _).
    exists s0, out, s', r, evs.
    split; [reflexivity |]. split; [reflexivity |]. split; [reflexivity |].
    split; [exact Hrun |]. split; [exact Htr | exact Hev].
  - intros w.
    destruct (uio_find_devices_shape (start_state w))
      as (out & s' & r & evs & Hrun & Htr & _ & Hev & _).
    exists out, s', r, evs. split; [exact Hrun |].
    split; [exact Htr | exact Hev].
Qed.

(** X5: discovery always returns; it leaves the mount point setting as it
    was; apart from listing the directory it only allocates, calls the
    factory and prints diagnostics, so it opens and maps no device; and
    when it returns the null pointer the factory has not been called. *)
Theorem uio_find_devices_reads_only (s : state W) :
  exists out s' r evs,
    uio_find_devices s = Val (out, s') /\
    trace s' = trace s ++ EvReaddir (sysfsname_of (sysfs s)) r :: evs /\
    sysfs s' = sysfs s /\
    Forall (fun ev => discovers (sysfsname_of (sysfs s)) ev = true) evs /\
    mmap_offsets evs = [] /\
    (out = None -> factory_names evs = []).
Proof.
  destruct (uio_find_devices_shape s)
    as (out & s' & r & evs & Hrun & Htr & Hfs & Hev & Hnone).
  exists out, s', r, evs.
  split; [exact Hrun |]. split; [exact Htr |]. split; [exact Hfs |].
  split; [exact Hev |]. split; [| exact Hnone].
  clear - Hev. induction Hev as [| ev evs Hd _ IH]; [reflexivity |].
  destruct ev as [[] | | |]; try discriminate; exact IH.
Qed.

End DiscoveryShape.

Lemma sysfsname_of_bounded_witness :
  (String.length "/sys" + 10 <= PATH_MAX - 1)%nat /\
  sysfsname_of "/sys" = "/sys/class/uio"%string.
Proof.
  assert (Hfit : (String.length "/sys" + 10 <= PATH_MAX - 1)%nat).
  { apply Nat.leb_le. vm_compute. reflexivity. }
  split; [exact Hfit |].
  destruct (sysfsname_of_bounded "/sys") as (_ & _ & Hshort & _).
  exact (Hshort Hfit).
Defined.

(** ** What the accessors see after open and close *)

Lemma zip_set_m_map_lookup (ms : list uio_map_t) : forall (rs : list Z) k,
  length rs = length ms ->
  zip_with set_m_map rs ms !! k =
  match rs !! k, ms !! k with
  | Some r, Some m => Some (set_m_map r m)
  | _, _ => None
  end.
Proof.
  induction ms as [| m ms IH]; intros [| r rs] k Hlen; try discriminate.
  - destruct k; reflexivity.
  - destruct k as [| k]; [reflexivity |]. simpl in Hlen.
    exact (IH rs k ltac:(lia)).
Qed.

Lemma zip_set_m_map_fields {B} (f : uio_map_t -> B) (ms : list uio_map_t) :
  (forall r m, f (set_m_map r m) = f m) ->
  forall rs : list Z, length rs = length ms ->
  f <$> zip_with set_m_map rs ms = f <$> ms.
Proof.
  intros Hf. induction ms as [| m ms IH]; intros [| r rs] Hlen;
    try discriminate; [reflexivity |].
  simpl in Hlen. simpl. rewrite Hf. f_equal. apply IH. lia.
Qed.

Lemma array_get_fields {B} (f : uio_map_t -> B) (ms ms' : list uio_map_t) i :
  f <$> ms' = f <$> ms ->
  res_bind (array_get ms' i) (fun m => Val (f m)) =
  res_bind (array_get ms i) (fun m => Val (f m)).
Proof.
  intros Heq. unfold array_get. destruct (i <? 0); [reflexivity |].
  assert (Hk : f <$> ms' !! Z.to_nat i = f <$> ms !! Z.to_nat i).
  { rewrite <- !list_lookup_fmap, Heq. reflexivity. }
  destruct (ms' !! Z.to_nat i), (ms !! Z.to_nat i); simpl in *;
    try discriminate; [| reflexivity].
  injection Hk as ->. reflexivity.
Qed.

(** Descriptors that agree on [maxmap] and on a field of every map give
    the same answer through the accessor of that field, index by index. *)
Lemma accessors_agree inf inf' :
  i_maxmap inf' = i_maxmap inf ->
  m_size <$> i_maps inf' = m_size <$> i_maps inf ->
  m_offset <$> i_maps inf' = m_offset <$> i_maps inf ->
  m_addr <$> i_maps inf' = m_addr <$> i_maps inf ->
  forall map,
    uio_get_mem_size (Some inf') map = uio_get_mem_size (Some inf) map /\
    uio_get_offset (Some inf') map = uio_get_offset (Some inf) map /\
    uio_get_mem_addr (Some inf') map = uio_get_mem_addr (Some inf) map.
Proof.
  intros Hmax Hsz Hoff Haddr map.
  unfold uio_get_mem_size, uio_get_offset, uio_get_mem_addr. rewrite Hmax.
  destruct (map >=? i_maxmap inf); [repeat split |].
  split; [apply array_get_fields, Hsz |].
  split; [apply array_get_fields, Hoff | apply array_get_fields, Haddr].
Qed.

Section AfterOpenClose.
Context {W : Type} {E : Env W}.

(** X6: after a successful [uio_open], [uio_get_mem_map] for index [k]
    returns the address that the mapping call for [k] returned, and the
    null pointer when that call returned [MAP_FAILED]; sizes, offsets and
    addresses read through the accessors are as before the open. *)
Theorem uio_open_then_get_mem_map inf (s : state W) fd e w :
  wf_info inf ->
  sys_call (Open (i_devname inf) O_RDWR) (world s) = (fd, e, w) ->
  0 <= fd ->
  exists rs inf' s',
    uio_open (Some inf) s = Val ((0, Some inf'), s') /\
    length rs = length (i_maps inf) /\
    trace s' = trace s ++ EvCall (Open (i_devname inf) O_RDWR) fd ::
                 imap (mmap_event fd) (zip (i_maps inf) rs) /\
    (forall k r, rs !! k = Some r ->
       uio_get_mem_map (Some inf') (Z.of_nat k) =
         Val (if r =? MAP_FAILED then NULL else r)) /\
    (forall map,
       uio_get_mem_size (Some inf') map = uio_get_mem_size (Some inf) map /\
       uio_get_offset (Some inf') map = uio_get_offset (Some inf) map /\
       uio_get_mem_addr (Some inf') map = uio_get_mem_addr (Some inf) map).
Proof.
  intros Hwf Hc Hfd.
  destruct (uio_open_mapped _ _ _ _ _ Hwf Hc Hfd)
    as (rs & s' & Hrun & Hlen & Htr & _).
  exists rs. eexists. exists s'. split; [exact Hrun |].
  split; [exact Hlen |]. split; [exact Htr |]. split.
  - intros k r Hr. unfold uio_get_mem_map. simpl i_maxmap. simpl i_maps.
    assert (Hk : (k < length (i_maps inf))%nat).
    { rewrite <- Hlen. eapply lookup_lt_Some. exact Hr. }
    destruct (Z.geb_spec (Z.of_nat k) (i_maxmap inf)) as [Hge |].
    { unfold wf_info in Hwf. lia. }
    destruct (lookup_lt_is_Some_2 (i_maps inf) k Hk) as [m Hm].
    rewrite (array_get_Some _ k (set_m_map r m)).
    + simpl. destruct (r =? MAP_FAILED); reflexivity.
    + rewrite (zip_set_m_map_lookup _ _ _ Hlen), Hr, Hm. reflexivity.
  - apply accessors_agree; simpl; try reflexivity;
      apply zip_set_m_map_fields; try exact Hlen; reflexivity.
Qed.

(** X7: after [uio_close], [uio_get_mem_map] returns the null pointer for
    every index that is not negative, while sizes, offsets and addresses
    read through the accessors are what they were before the close. *)
Theorem uio_close_then_accessors inf (s : state W) :
  wf_info inf ->
  exists inf' s',
    uio_close (Some inf) s = Val ((0, Some inf'), s') /\
    forall map,
      (0 <= map -> uio_get_mem_map (Some inf') map = Val NULL) /\
      uio_get_mem_size (Some inf') map = uio_get_mem_size (Some inf) map /\
      uio_get_offset (Some inf') map = uio_get_offset (Some inf) map /\
      uio_get_mem_addr (Some inf') map = uio_get_mem_addr (Some inf) map.
Proof.
  intros Hwf.
  destruct (uio_close_run inf s Hwf) as (rs & s1 & r & e & w & Hrun & _).
  eexists. eexists. split; [exact Hrun |]. intros map. split.
  - intros Hpos. unfold uio_get_mem_map. simpl i_maxmap. simpl i_maps.
    destruct (Z.geb_spec map (i_maxmap inf)) as [| Hlt]; [reflexivity |].
    destruct (wf_lookup inf map Hwf) as (m & Hm & _); [lia |].
    unfold array_get. destruct (Z.ltb_spec map 0); [lia |].
    rewrite list_lookup_fmap, Hm. reflexivity.
  - apply accessors_agree; simpl; try reflexivity;
      rewrite <- list_fmap_compose; reflexivity.
Qed.

End AfterOpenClose.

Lemma uio_open_then_get_mem_map_witness :
  wf_info demo_info /\
  exists inf' s',
    uio_open (Some demo_info) (sim_state sim_world) = Val ((0, Some inf'), s') /\
    forall map,
      uio_get_mem_size (Some inf') map = uio_get_mem_size (Some demo_info) map.
Proof.
  assert (Hwf : wf_info demo_info) by reflexivity.
  assert (Hc : sys_call (Open (i_devname demo_info) O_RDWR)
                 (world (sim_state sim_world)) = (3, None, sim_world))
    by reflexivity.
  assert (Hfd : 0 <= 3) by lia.
  split; [exact Hwf |].
  destruct (uio_open_then_get_mem_map demo_info (sim_state sim_world)
              3 None sim_world Hwf Hc Hfd)
    as (rs & inf' & s' & Hrun & _ & _ & _ & Hsame).
  exists inf', s'. split; [exact Hrun |].
  intros map. exact (proj1 (Hsame map)).
Defined.

Lemma uio_close_then_accessors_witness :
  wf_info demo_open /\
  exists inf' s',
    uio_close (Some demo_open) (sim_state sim_world) = Val ((0, Some inf'), s') /\
    uio_get_mem_map (Some inf') 0 = Val NULL.
Proof.
  assert (Hwf : wf_info demo_open) by reflexivity.
  split; [exact Hwf |].
  destruct (uio_close_then_accessors demo_open (sim_state sim_world) Hwf)
    as (inf' & s' & Hrun & Hacc).
  exists inf', s'. split; [exact Hrun |].
  exact (proj1 (Hacc 0) ltac:(lia)).
Defined.

(** ** What open and close touch *)

Lemma acquires_mmap_events fd (mrs : list (uio_map_t * Z)) :
  Forall (fun ev => acquires ev = true) (imap (mmap_event fd) mrs).
Proof.
  apply Forall_forall. intros ev Hin.
  apply elem_of_lookup_imap in Hin as (i & x & -> & _). reflexivity.
Qed.

Lemma unmapped_addresses (ms : list uio_map_t) : forall rs : list Z,
  length rs = length ms ->
  m_map <$> List.filter mapped (zip_with set_m_map rs ms) =
  List.filter mapping_ok rs.
Proof.
  induction ms as [| m ms IH]; intros [| r rs] Hlen; try discriminate;
    [reflexivity |].
  simpl in Hlen. simpl. unfold mapped at 1, mapping_ok at 1. simpl m_map.
  destruct (r =? MAP_FAILED); simpl; [| f_equal]; apply IH; lia.
Qed.

Lemma sentinel_maps_unmapped (ms : list uio_map_t) :
  Forall (fun m => m_map m = MAP_FAILED) ms ->
  List.filter mapped ms = [] /\ set_m_map MAP_FAILED <$> ms = ms.
Proof.
  induction 1 as [| m ms Hm _ [IH1 IH2]]; [split; reflexivity |]. split.
  - simpl. unfold mapped at 1. rewrite Hm, Z.eqb_refl. exact IH1.
  - rewrite fmap_cons, IH2. f_equal.
    destruct m as [a sz o p]. simpl in Hm. subst p. reflexivity.
Qed.

Section Resources.
Context {W : Type} {E : Env W}.

(** X8: [uio_open] on a descriptor always returns, with 0 or -1.  It
    changes nothing but the map pointers and the file handle: name,
    version, device node, device number, map count and each map's size,
    offset and address are as before, and the array still has [maxmap]
    elements.  When it returns -1 the descriptor is untouched; when it
    returns 0 the stored handle is not negative. *)
Theorem uio_open_frame inf (s : state W) :
  wf_info inf ->
  exists v inf' s',
    uio_open (Some inf) s = Val ((v, Some inf'), s') /\
    (v = 0 \/ v = -1) /\
    (v = -1 -> inf' = inf) /\
    (v = 0 -> 0 <= i_fd inf') /\
    wf_info inf' /\
    i_name inf' = i_name inf /\ i_version inf' = i_version inf /\
    i_devname inf' = i_devname inf /\ i_devid inf' = i_devid inf /\
    i_maxmap inf' = i_maxmap inf /\
    (m_size <$> i_maps inf') = (m_size <$> i_maps inf) /\
    (m_offset <$> i_maps inf') = (m_offset <$> i_maps inf) /\
    (m_addr <$> i_maps inf') = (m_addr <$> i_maps inf).
Proof.
  intros Hwf.
  destruct (sys_call (Open (i_devname inf) O_RDWR) (world s))
    as [[fd e] w] eqn:Hc.
  destruct (Z.lt_ge_cases fd 0) as [Hneg | Hpos].
  - exists (-1), inf. eexists.
    split; [exact (uio_open_refused _ _ _ _ _ Hc Hneg) |].
    split; [right; reflexivity |]. split; [reflexivity |].
    split; [discriminate |]. split; [exact Hwf |]. repeat split.
  - destruct (uio_open_mapped _ _ _ _ _ Hwf Hc Hpos)
      as (rs & s' & Hrun & Hlen & _).
    exists 0. eexists. exists s'. split; [exact Hrun |].
    split; [left; reflexivity |]. split; [discriminate |].
    split; [intros _; exact Hpos |].
    split.
    { unfold wf_info. simpl. rewrite length_zip_with, Hlen, Nat.min_id.
      exact Hwf. }
    do 5 (split; [reflexivity |]). simpl.
    split; [| split]; apply zip_set_m_map_fields; try exact Hlen; reflexivity.
Qed.

(** X9: [uio_open] acquires and never releases: whatever state the
    descriptor is in, the only things it does outside are [open], [mmap]
    and the diagnostic.  Called on a descriptor that is already open, it
    overwrites the file handle and the pointers without a [close] or a
    [munmap] of the old ones. *)
Theorem uio_open_never_releases (info : option uio_info_t) (s : state W) :
  (forall inf, info = Some inf -> wf_info inf) ->
  exists out s' evs,
    uio_open info s = Val (out, s') /\
    trace s' = trace s ++ evs /\
    Forall (fun ev => acquires ev = true) evs.
Proof.
  intros Hwf. destruct info as [inf |].
  - destruct (sys_call (Open (i_devname inf) O_RDWR) (world s))
      as [[fd e] w] eqn:Hc.
    destruct (Z.lt_ge_cases fd 0) as [Hneg | Hpos].
    + destruct (diagnosed_spec "open"
                  (called (Open (i_devname inf) O_RDWR) fd e w s))
        as (Htr & _).
      eexists _, _, [_; _].
      split; [exact (uio_open_refused _ _ _ _ _ Hc Hneg) |].
      split; [rewrite Htr; simpl; rewrite <- app_assoc; reflexivity |].
      repeat constructor.
    + destruct (uio_open_mapped _ _ _ _ _ (Hwf inf eq_refl) Hc Hpos)
        as (rs & s' & Hrun & _ & Htr & _).
      eexists _, s', (_ :: _). split; [exact Hrun |].
      split; [exact Htr |].
      constructor; [reflexivity | apply acquires_mmap_events].
  - destruct (rejected_spec "uio_open" s) as (Htr & _).
    eexists _, _, [_]. split; [apply uio_open_null |].
    split; [exact Htr | repeat constructor].
Qed.

(** X10: a successful [uio_open] followed by [uio_close] releases what it
    acquired: [munmap] is called once for each mapping call that did not
    return [MAP_FAILED], in index order, with the address that call
    returned, and for no failed one; then [close] is called on the handle
    that [open] returned. *)
Theorem open_close_balanced inf (s : state W) fd e w :
  wf_info inf ->
  sys_call (Open (i_devname inf) O_RDWR) (world s) = (fd, e, w) ->
  0 <= fd ->
  exists rs us rc inf' s',
    open_close (Some inf) s = Val ((0, Some inf'), s') /\
    length rs = length (i_maps inf) /\
    length us = length (List.filter mapping_ok rs) /\
    let unmapped := List.filter mapped (zip_with set_m_map rs (i_maps inf)) in
    (m_map <$> unmapped) = List.filter mapping_ok rs /\
    trace s' =
      trace s ++ EvCall (Open (i_devname inf) O_RDWR) fd ::
        imap (mmap_event fd) (zip (i_maps inf) rs) ++
        zip_with munmap_event unmapped us ++ [EvCall (Close fd) rc].
Proof.
  intros Hwf Hc Hfd.
  destruct (uio_open_mapped _ _ _ _ _ Hwf Hc Hfd)
    as (rs & s1 & Hrun1 & Hlen & Htr1 & _).
  set (inf1 := set_i_fd fd
                 (set_i_maps (zip_with set_m_map rs (i_maps inf)) inf)) in *.
  assert (Hwf1 : wf_info inf1).
  { unfold wf_info, inf1. simpl. rewrite length_zip_with, Hlen, Nat.min_id.
    exact Hwf. }
  destruct (uio_close_run inf1 s1 Hwf1)
    as (us & s2 & rc & e' & w' & Hrun2 & Hus & Htr2 & _).
  simpl i_maps in Hus, Htr2. simpl i_fd in Hrun2.
  exists rs, us, rc. eexists. eexists.
  split; [unfold open_close, bind; rewrite Hrun1; exact Hrun2 |].
  split; [exact Hlen |].
  pose proof (unmapped_addresses (i_maps inf) rs Hlen) as Haddr.
  split.
  { rewrite Hus, <- Haddr, length_fmap. reflexivity. }
  split; [exact Haddr |].
  simpl. rewrite Htr2, Htr1. rewrite <- !app_assoc. reflexivity.
Qed.

(** X11: [uio_close] on a descriptor that holds no mapping (every pointer
    at [MAP_FAILED], as before the first open or after a close) leaves the
    descriptor exactly as it was and issues a single call, [close] on the
    file handle field, whatever that field holds. *)
Theorem uio_close_unmapped_only_closes inf (s : state W) :
  wf_info inf ->
  Forall (fun m => m_map m = MAP_FAILED) (i_maps inf) ->
  exists rc s',
    uio_close (Some inf) s = Val ((0, Some inf), s') /\
    trace s' = trace s ++ [EvCall (Close (i_fd inf)) rc].
Proof.
  intros Hwf Hall.
  destruct (uio_close_run inf s Hwf)
    as (us & s1 & rc & e & w & Hrun & _ & Htr & _).
  destruct (sentinel_maps_unmapped _ Hall) as [Hnone Hsame].
  rewrite Hnone in Htr. rewrite Hsame, set_i_maps_id in Hrun.
  simpl in Htr. rewrite app_nil_r in Htr.
  exists rc. eexists. split; [exact Hrun |].
  simpl. rewrite Htr. reflexivity.
Qed.

(** X12: [uio_irqwait_timeout] on an absent descriptor or on one whose
    file handle is -1 assigns [errno = EINVAL], prints the diagnostic for
    it and returns -1, with or without a timeout; it calls neither
    [select] nor [read], and on return [errno] is [EINVAL] unless [perror]
    itself assigned it. *)
Theorem uio_irqwait_timeout_not_open info timeout (s : state W) :
  not_open info ->
  exists s',
    uio_irqwait_timeout info timeout s = Val (-1, s') /\
    trace s' = trace s ++ [EvPerror "uio_irqwait_timeout" EINVAL] /\
    errno s' =
      default EINVAL (sys_perror "uio_irqwait_timeout" EINVAL (world s)).1.
Proof.
  intros Hno. exists (rejected "uio_irqwait_timeout" s).
  destruct (rejected_spec "uio_irqwait_timeout" s) as (Htr & Herr & _).
  split; [| split; assumption].
  destruct info as [inf |]; [| reflexivity].
  simpl in Hno. unfold uio_irqwait_timeout. rewrite Hno. reflexivity.
Qed.

End Resources.

Lemma uio_open_frame_witness :
  wf_info demo_info /\
  exists v inf' s',
    uio_open (Some demo_info) (sim_state sim_world_noent) =
      Val ((v, Some inf'), s') /\
    (v = 0 \/ v = -1) /\ (v = -1 -> inf' = demo_info) /\
    i_maxmap inf' = i_maxmap demo_info.
Proof.
  assert (Hwf : wf_info demo_info) by reflexivity.
  split; [exact Hwf |].
  destruct (uio_open_frame demo_info (sim_state sim_world_noent) Hwf)
    as (v & inf' & s' & Hrun & Hv & Hsame & _ & _ & _ & _ & _ & _ & Hmax & _).
  exists v, inf', s'. split; [exact Hrun |]. split; [exact Hv |].
  split; [exact Hsame | exact Hmax].
Defined.

(** Opening the descriptor that is already open on handle 3. *)
Lemma uio_open_never_releases_witness :
  (forall inf, Some demo_open = Some inf -> wf_info inf) /\
  exists out s' evs,
    uio_open (Some demo_open) (sim_state sim_world) = Val (out, s') /\
    trace s' = [] ++ evs /\
    Forall (fun ev => acquires ev = true) evs.
Proof.
  assert (Hwf : forall inf, Some demo_open = Some inf -> wf_info inf).
  { intros inf Heq. injection Heq as <-. reflexivity. }
  split; [exact Hwf |].
  exact (uio_open_never_releases (Some demo_open) (sim_state sim_world) Hwf).
Defined.

Lemma open_close_balanced_witness :
  wf_info demo_info /\
  sys_call (Open (i_devname demo_info) O_RDWR) sim_world = (3, None, sim_world) /\
  0 <= 3 /\
  exists (rs us : list Z) inf' s',
    open_close (Some demo_info) (sim_state sim_world) =
      Val ((0, Some inf'), s') /\
    length rs = 2%nat /\
    length us = length (List.filter mapping_ok rs).
Proof.
  assert (Hwf : wf_info demo_info) by reflexivity.
  assert (Hc : sys_call (Open (i_devname demo_info) O_RDWR)
                 (world (sim_state sim_world)) = (3, None, sim_world))
    by reflexivity.
  assert (Hfd : 0 <= 3) by lia.
  split; [exact Hwf |]. split; [exact Hc |]. split; [exact Hfd |].
  destruct (open_close_balanced demo_info (sim_state sim_world)
              3 None sim_world Hwf Hc Hfd)
    as (rs & us & rc & inf' & s' & Hrun & Hlen & Hus & _).
  exists rs, us, inf', s'. split; [exact Hrun |].
  split; [exact Hlen | exact Hus].
Defined.

(** Closing the descriptor that was never opened calls [close (-1)]. *)
Lemma uio_close_unmapped_only_closes_witness :
  wf_info demo_info /\
  Forall (fun m => m_map m = MAP_FAILED) (i_maps demo_info) /\
  exists rc s',
    uio_close (Some demo_info) (sim_state sim_world) =
      Val ((0, Some demo_info), s') /\
    trace s' = [] ++ [EvCall (Close (-1)) rc].
Proof.
  assert (Hwf : wf_info demo_info) by reflexivity.
  assert (Hall : Forall (fun m => m_map m = MAP_FAILED) (i_maps demo_info)).
  { repeat constructor. }
  split; [exact Hwf |]. split; [exact Hall |].
  exact (uio_close_unmapped_only_closes demo_info (sim_state sim_world)
           Hwf Hall).
Defined.

Lemma uio_irqwait_timeout_not_open_witness :
  not_open (Some demo_info) /\
  exists s',
    uio_irqwait_timeout (Some demo_info) None (sim_state sim_world) =
      Val (-1, s') /\
    trace s' = [] ++ [EvPerror "uio_irqwait_timeout" EINVAL] /\
    errno s' = EINVAL.
Proof.
  assert (Hno : not_open (Some demo_info)) by reflexivity.
  split; [exact Hno |].
  exact (uio_irqwait_timeout_not_open (Some demo_info) None
           (sim_state sim_world) Hno).
Defined.

(** ** The array that discovery returns *)

Lemma filter_not_dot_all (l : list string) :
  Forall (fun d => is_dot d = false) l -> List.filter not_dot l = l.
Proof.
  induction 1 as [| d l Hd _ IH]; [reflexivity |].
  simpl. unfold not_dot at 1. rewrite Hd. simpl. rewrite IH. reflexivity.
Qed.

Lemma filter_not_dot_fewer (l : list string) :
  Exists (fun d => is_dot d = true) l ->
  (length (List.filter not_dot l) < length l)%nat.
Proof.
  induction 1 as [d l Hd | d l _ IH]; simpl.
  - unfold not_dot at 1. rewrite Hd. simpl.
    pose proof (filter_length_le not_dot l). lia.
  - destruct (not_dot d); simpl; [lia |].
    pose proof (filter_length_le not_dot l). lia.
Qed.

Lemma alpha_le_antisym a b : alpha_le a b -> alpha_le b a -> a = b.
Proof.
  unfold alpha_le, alphasort. rewrite (String.compare_antisym a b).
  intros Hab Hba. apply String.compare_eq_iff.
  rewrite (String.compare_antisym a b).
  destruct (String.compare b a); simpl in *; congruence.
Qed.

#[global] Instance alpha_le_antisymmetric : AntiSymm (=) alpha_le.
Proof. intros a b. apply alpha_le_antisym. Qed.

(** The names handed to the factory depend on the set of entries only. *)
Lemma sorted_names_unique (l1 l2 : list string) :
  l1 ≡ₚ l2 ->
  List.filter not_dot (merge_sort alpha_le l1) =
  List.filter not_dot (merge_sort alpha_le l2).
Proof.
  intros Hperm. f_equal.
  apply (StronglySorted_unique alpha_le);
    try (apply StronglySorted_merge_sort; apply _).
  rewrite !merge_sort_Permutation. exact Hperm.
Qed.

Section DiscoveryArray.
Context {W : Type} {E : Env W}.

(** X13: when discovery succeeds the array has as many slots as the
    directory listing has entries; the factory results take the first
    slots and every slot from the number of device entries on is null.
    So with "." or ".." in the listing the results are followed by a null
    slot, and with neither the array is filled to its last slot with
    nothing after the results. *)
Theorem uio_find_devices_null_terminated (s : state W) l e w p e' w' :
  sys_readdir (sysfsname_of (sysfs s)) (world s) = (Some l, e, w) ->
  sys_call (Calloc (Z.of_nat (length l)) sizeof_ptr) w = (p, e', w') ->
  p <> NULL ->
  exists info s',
    uio_find_devices s = Val (Some info, s') /\
    length info = length l /\
    let n := length (List.filter not_dot l) in
    (forall k, (n <= k < length l)%nat -> info !! k = Some None) /\
    (Exists (fun d => is_dot d = true) l -> info !! n = Some None) /\
    (Forall (fun d => is_dot d = false) l -> n = length l).
Proof.
  intros Hdir Hc Hp.
  destruct (uio_find_devices_filled s l e w p e' w' Hdir Hc Hp)
    as (rs & s' & Hrun & Hrs & _).
  assert (Hn : length (List.filter not_dot (merge_sort alpha_le l)) =
               length (List.filter not_dot l)).
  { apply Permutation_length, filter_Permutation, merge_sort_Permutation. }
  rewrite Hn in Hrun, Hrs.
  pose proof (filter_length_le not_dot l) as Hle.
  assert (Hnull : forall k,
            (length (List.filter not_dot l) <= k < length l)%nat ->
            (rs ++ replicate (length l - length (List.filter not_dot l)) None)
              !! k = Some (@None uio_info_t)).
  { intros k Hk. rewrite lookup_app_r by lia.
    apply lookup_replicate_2. lia. }
  eexists. exists s'. split; [exact Hrun |].
  split; [rewrite length_app, length_replicate; lia |].
  split; [exact Hnull |]. split.
  - intros Hdot. apply Hnull.
    pose proof (filter_not_dot_fewer l Hdot). lia.
  - intros Hnone. rewrite (filter_not_dot_all l Hnone). reflexivity.
Qed.

(** X14: the order in which the directory is listed does not matter: two
    runs of discovery whose listings hold the same entries hand the same
    names to the factory in the same order, the sorted one. *)
Theorem uio_find_devices_order_independent
    (s1 s2 : state W) l1 l2 e1 w1 e2 w2 p1 p2 e1' w1' e2' w2' :
  sys_readdir (sysfsname_of (sysfs s1)) (world s1) = (Some l1, e1, w1) ->
  sys_readdir (sysfsname_of (sysfs s2)) (world s2) = (Some l2, e2, w2) ->
  sys_call (Calloc (Z.of_nat (length l1)) sizeof_ptr) w1 = (p1, e1', w1') ->
  sys_call (Calloc (Z.of_nat (length l2)) sizeof_ptr) w2 = (p2, e2', w2') ->
  p1 <> NULL -> p2 <> NULL ->
  l1 ≡ₚ l2 ->
  exists info1 s1' info2 s2' names,
    uio_find_devices s1 = Val (Some info1, s1') /\
    uio_find_devices s2 = Val (Some info2, s2') /\
    factory_names (trace s1') = factory_names (trace s1) ++ names /\
    factory_names (trace s2') = factory_names (trace s2) ++ names /\
    StronglySorted alpha_le names /\
    names ≡ₚ List.filter not_dot l1.
Proof.
  intros Hd1 Hd2 Hc1 Hc2 Hp1 Hp2 Hperm.
  destruct (uio_find_devices_filled s1 l1 e1 w1 p1 e1' w1' Hd1 Hc1 Hp1)
    as (rs1 & s1' & Hrun1 & Hrs1 & Htr1 & _).
  destruct (uio_find_devices_filled s2 l2 e2 w2 p2 e2' w2' Hd2 Hc2 Hp2)
    as (rs2 & s2' & Hrun2 & Hrs2 & Htr2 & _).
  rewrite <- (sorted_names_unique l1 l2 Hperm) in Hrun2, Hrs2, Htr2.
  eexists _, s1', _, s2', (List.filter not_dot (merge_sort alpha_le l1)).
  split; [exact Hrun1 |]. split; [exact Hrun2 |].
  split; [| split; [| split]].
  - rewrite Htr1. unfold factory_names. rewrite omap_app. f_equal.
    exact (factory_names_events _ _ rs1 Hrs1).
  - rewrite Htr2. unfold factory_names. rewrite omap_app. f_equal.
    exact (factory_names_events _ _ rs2 Hrs2).
  - apply StronglySorted_filter, StronglySorted_merge_sort; apply _.
  - apply filter_Permutation, merge_sort_Permutation.
Qed.

End DiscoveryArray.

Lemma uio_find_devices_null_terminated_witness :
  sys_readdir (sysfsname_of (sysfs (sim_state sim_world)))
    (world (sim_state sim_world)) =
    (Some ["uio0"; ".."; "uio2"; "."; "uio1"]%string, None, sim_world) /\
  sys_call (Calloc 5 sizeof_ptr) sim_world = (0x55550000, None, sim_world) /\
  0x55550000 <> NULL /\
  exists info s',
    uio_find_devices (sim_state sim_world) = Val (Some info, s') /\
    length info = 5%nat /\
    info !! 3%nat = Some None.
Proof.
  assert (Hdir : sys_readdir (sysfsname_of (sysfs (sim_state sim_world)))
                   (world (sim_state sim_world)) =
                 (Some ["uio0"; ".."; "uio2"; "."; "uio1"]%string, None,
                  sim_world)) by reflexivity.
  assert (Hc : sys_call (Calloc (Z.of_nat
                   (length ["uio0"; ".."; "uio2"; "."; "uio1"]%string))
                   sizeof_ptr) sim_world = (0x55550000, None, sim_world))
    by reflexivity.
  assert (Hp : 0x55550000 <> NULL) by discriminate.
  split; [exact Hdir |]. split; [exact Hc |]. split; [exact Hp |].
  destruct (uio_find_devices_null_terminated (sim_state sim_world)
              _ _ _ _ _ _ Hdir Hc Hp)
    as (info & s' & Hrun & Hlen & Hnull & _).
  exists info, s'. split; [exact Hrun |]. split; [exact Hlen |].
  apply Hnull. simpl. lia.
Defined.

Lemma uio_find_devices_order_independent_witness :
  ["uio0"; ".."; "uio2"; "."; "uio1"]%string ≡ₚ
    [".."; "uio0"; "uio2"; "."; "uio1"]%string /\
  exists info1 s1' info2 s2' names,
    uio_find_devices (sim_state sim_world) = Val (Some info1, s1') /\
    uio_find_devices (sim_state sim_world_shuffled) = Val (Some info2, s2') /\
    factory_names (trace s1') = [] ++ names /\
    factory_names (trace s2') = [] ++ names.
Proof.
  assert (Hperm : ["uio0"; ".."; "uio2"; "."; "uio1"]%string ≡ₚ
                  [".."; "uio0"; "uio2"; "."; "uio1"]%string)
    by apply perm_swap.
  assert (Hd1 : sys_readdir (sysfsname_of (sysfs (sim_state sim_world)))
                  (world (sim_state sim_world)) =
                (Some ["uio0"; ".."; "uio2"; "."; "uio1"]%string, None,
                 sim_world)) by reflexivity.
  assert (Hd2 : sys_readdir
                  (sysfsname_of (sysfs (sim_state sim_world_shuffled)))
                  (world (sim_state sim_world_shuffled)) =
                (Some [".."; "uio0"; "uio2"; "."; "uio1"]%string, None,
                 sim_world_shuffled)) by reflexivity.
  assert (Hc1 : sys_call (Calloc (Z.of_nat
                    (length ["uio0"; ".."; "uio2"; "."; "uio1"]%string))
                    sizeof_ptr) sim_world = (0x55550000, None, sim_world))
    by reflexivity.
  assert (Hc2 : sys_call (Calloc (Z.of_nat
                    (length [".."; "uio0"; "uio2"; "."; "uio1"]%string))
                    sizeof_ptr) sim_world_shuffled =
                (0x55550000, None, sim_world_shuffled))
    by reflexivity.
  assert (Hp : 0x55550000 <> NULL) by discriminate.
  split; [exact Hperm |].
  destruct (uio_find_devices_order_independent _ _ _ _ _ _ _ _ _ _ _ _ _ _
              Hd1 Hd2 Hc1 Hc2 Hp Hp Hperm)
    as (info1 & s1' & info2 & s2' & names & H1 & H2 & N1 & N2 & _).
  exists info1, s1', info2, s2', names.
  split; [exact H1 |]. split; [exact H2 |]. split; [exact N1 | exact N2].
Defined.

(** ** What open depends on *)

Lemma zip_set_m_map_pointers (ms : list uio_map_t) : forall rs : list Z,
  length rs = length ms -> m_map <$> zip_with set_m_map rs ms = rs.
Proof.
  induction ms as [| m ms IH]; intros [| r rs] Hlen; try discriminate;
    [reflexivity |].
  simpl in Hlen. simpl. f_equal. apply IH. lia.
Qed.

Section Reopen.
Context {W : Type} {E : Env W}.

(** The mapping loop run on two arrays with the same sizes: the same
    calls, the same answers, the same final state. *)
Lemma open_loop_sizes fd suf : forall suf' pre pre' inf inf' (s : state W),
  i_maps inf = pre ++ suf ->
  i_maps inf' = pre' ++ suf' ->
  length pre = length pre' ->
  m_size <$> suf = m_size <$> suf' ->
  exists rs s',
    for_loop (length suf) (Z.of_nat (length pre)) (open_body fd) inf s =
      Val (set_i_maps (pre ++ zip_with set_m_map rs suf) inf, s') /\
    for_loop (length suf') (Z.of_nat (length pre')) (open_body fd) inf' s =
      Val (set_i_maps (pre' ++ zip_with set_m_map rs suf') inf', s') /\
    length rs = length suf /\ length rs = length suf'.
Proof.
  induction suf as [| m suf IH];
    intros [| m' suf'] pre pre' inf inf' s Hmaps Hmaps' Hpre Hsz;
    try discriminate.
  - exists [], s. simpl. rewrite app_nil_r in *.
    subst pre pre'. rewrite ?app_nil_r, !set_i_maps_id. repeat split.
  - rewrite !fmap_cons in Hsz. injection Hsz as Hm Hsz.
    destruct (sys_call (Mmap NULL (m_size m) (Z.lor PROT_READ PROT_WRITE)
                MAP_SHARED fd (Z.of_nat (length pre))) (world s))
      as [[p e] w] eqn:Hc.
    assert (Hc' : sys_call (Mmap NULL (m_size m') (Z.lor PROT_READ PROT_WRITE)
                    MAP_SHARED fd (Z.of_nat (length pre'))) (world s) =
                  (p, e, w)).
    { rewrite <- Hm, <- Hpre. exact Hc. }
    change (length (m :: suf)) with (S (length suf)).
    change (length (m' :: suf')) with (S (length suf')).
    rewrite !for_loop_S.
    rewrite (open_body_step _ _ _ _ _ _ _ _ _ Hmaps Hc).
    rewrite (open_body_step _ _ _ _ _ _ _ _ _ Hmaps' Hc').
    assert (Hs : called (Mmap NULL (m_size m') (Z.lor PROT_READ PROT_WRITE)
                    MAP_SHARED fd (Z.of_nat (length pre'))) p e w s =
                 called (Mmap NULL (m_size m) (Z.lor PROT_READ PROT_WRITE)
                    MAP_SHARED fd (Z.of_nat (length pre))) p e w s).
    { rewrite <- Hm, <- Hpre. reflexivity. }
    rewrite Hs. clear Hs.
    set (s1 := called _ p e w s).
    set (inf1 := set_i_maps (pre ++ set_m_map p m :: suf) inf).
    set (inf1' := set_i_maps (pre' ++ set_m_map p m' :: suf') inf').
    destruct (IH suf' (pre ++ [set_m_map p m]) (pre' ++ [set_m_map p m'])
                inf1 inf1' s1)
      as (rs & s' & Hrun & Hrun' & Hlen & Hlen').
    { unfold inf1. simpl. rewrite <- app_assoc. reflexivity. }
    { unfold inf1'. simpl. rewrite <- app_assoc. reflexivity. }
    { rewrite !length_app, Hpre. reflexivity. }
    { exact Hsz. }
    assert (Hp1 : Z.of_nat (length pre) + 1 =
                  Z.of_nat (length (pre ++ [set_m_map p m]))).
    { rewrite length_app. simpl. lia. }
    assert (Hp1' : Z.of_nat (length pre') + 1 =
                   Z.of_nat (length (pre' ++ [set_m_map p m']))).
    { rewrite length_app. simpl. lia. }
    exists (p :: rs), s'. rewrite Hp1, Hrun. rewrite Hp1', Hrun'.
    unfold inf1, inf1'. simpl. rewrite <- !app_assoc. simpl.
    rewrite Hlen at 1. rewrite Hlen'. repeat split.
Qed.

(** X15: what [uio_open] does depends on the device node name, the map
    count and the map sizes only.  Two descriptors that agree on these
    give the same calls, the same result, the same final state, and on
    success the same file handle and the same pointers, whatever file
    handle, pointers, offsets and addresses they held before.  In
    particular a descriptor left by [uio_close] with a stale file handle
    opens exactly as one that was never opened. *)
Theorem uio_open_ignores_old_state inf inf' (s : state W) :
  wf_info inf -> wf_info inf' ->
  i_devname inf' = i_devname inf ->
  i_maxmap inf' = i_maxmap inf ->
  m_size <$> i_maps inf' = m_size <$> i_maps inf ->
  exists v d d' s',
    uio_open (Some inf) s = Val ((v, Some d), s') /\
    uio_open (Some inf') s = Val ((v, Some d'), s') /\
    (v = 0 ->
       i_fd d' = i_fd d /\ m_map <$> i_maps d' = m_map <$> i_maps d).
Proof.
  intros Hwf Hwf' Hdev Hmax Hsz.
  destruct (sys_call (Open (i_devname inf) O_RDWR) (world s))
    as [[fd e] w] eqn:Hc.
  assert (Hc' : sys_call (Open (i_devname inf') O_RDWR) (world s) = (fd, e, w))
    by (rewrite Hdev; exact Hc).
  destruct (Z.lt_ge_cases fd 0) as [Hneg | Hpos].
  - exists (-1), inf, inf'. eexists.
    rewrite (uio_open_refused _ _ _ _ _ Hc Hneg).
    rewrite (uio_open_refused _ _ _ _ _ Hc' Hneg). rewrite Hdev.
    split; [reflexivity |]. split; [reflexivity | discriminate].
  - destruct (open_loop_sizes fd (i_maps inf) (i_maps inf') [] [] inf inf'
                (called (Open (i_devname inf) O_RDWR) fd e w s)
                eq_refl eq_refl eq_refl (eq_sym Hsz))
      as (rs & s' & Hrun & Hrun' & Hlen & Hlen').
    change (Z.of_nat (length (@nil uio_map_t))) with 0 in Hrun, Hrun'.
    simpl app in Hrun, Hrun'.
    exists 0. eexists. eexists. exists s'.
    split; [| split].
    + unfold uio_open, bind at 1. rewrite (syscall_eq _ _ _ _ _ Hc).
      destruct (Z.ltb_spec fd 0); [lia |].
      unfold for_range, bind. rewrite <- Hwf, Nat2Z.id, Hrun. reflexivity.
    + unfold uio_open, bind at 1. rewrite (syscall_eq _ _ _ _ _ Hc').
      destruct (Z.ltb_spec fd 0); [lia |].
      unfold for_range, bind. rewrite <- Hwf', Nat2Z.id.
      rewrite Hdev, Hrun'. reflexivity.
    + intros _. split; [reflexivity |]. simpl.
      rewrite !zip_set_m_map_pointers by assumption. reflexivity.
Qed.

End Reopen.

(** The descriptor left by a close, with stale handle 3, opens as the one
    that was never opened. *)
Lemma uio_open_ignores_old_state_witness :
  wf_info demo_info /\ wf_info (set_i_fd 3 demo_info) /\
  exists v d d' s',
    uio_open (Some demo_info) (sim_state sim_world) = Val ((v, Some d), s') /\
    uio_open (Some (set_i_fd 3 demo_info)) (sim_state sim_world) =
      Val ((v, Some d'), s') /\
    (v = 0 -> i_fd d' = i_fd d /\ m_map <$> i_maps d' = m_map <$> i_maps d).
Proof.
  assert (Hwf : wf_info demo_info) by reflexivity.
  assert (Hwf' : wf_info (set_i_fd 3 demo_info)) by reflexivity.
  split; [exact Hwf |]. split; [exact Hwf' |].
  exact (uio_open_ignores_old_state demo_info (set_i_fd 3 demo_info)
           (sim_state sim_world) Hwf Hwf' eq_refl eq_refl eq_refl).
Defined.
